(** * gamepad-lock-inhibit: a shallow embedding of [gamepad-lock-inhibit.py]

    The program keeps logind from declaring the session idle while a game
    controller is in use.  Three classes and one coroutine carry the logic:

    - [GamepadsWatcher]   one asyncio task per controller, a shared
                          [gamepad_active] flag, a [tasks] dict and a
                          [devices] dict keyed by device path;
    - [IdleLock]          one optional inhibitor file descriptor;
    - [inhibit_idle_when_gamepads_active]
                          the periodic loop that samples the flag and drives
                          the lock.

    The embedding is a state-and-exception monad over a record [World] that
    holds the fields of the Python objects together with the part of the
    outside world they touch (asyncio's tasks, the evdev handles, the
    inhibitors logind handed out, the log).  A mutation made before an
    exception is raised stays made, as in Python. *)

From Stdlib Require Import ZArith.
From stdpp Require Import base option list strings.

(** ** Python dictionaries keyed by [str]

    [dict] keeps insertion order; [GamepadsWatcher.start] and
    [GamepadsWatcher.stop] iterate over [keys()] and [values()], so the order
    is part of the behaviour. *)

Module Dict.
Section dict.
Context {V : Type}.

Definition t := list (string * V).

Definition empty : t := [].

(** [d.get(k)] without default: [None] when the key is absent. *)
Fixpoint get (k : string) (d : t) : option V :=
  match d with
  | [] => None
  | (k', v) :: r => if decide (k = k') then Some v else get k r
  end.

(** [d[k] = v]: overwrite in place, or append a new key. *)
Fixpoint set (k : string) (v : V) (d : t) : t :=
  match d with
  | [] => [(k, v)]
  | (k', v') :: r =>
      if decide (k = k') then (k, v) :: r else (k', v') :: set k v r
  end.

(** The dictionary left by [del d[k]] (the caller raises [KeyError] when
    the key is absent). *)
Fixpoint remove (k : string) (d : t) : t :=
  match d with
  | [] => []
  | (k', v') :: r =>
      if decide (k = k') then r else (k', v') :: remove k r
  end.

Definition keys (d : t) : list string := d.*1.
Definition values (d : t) : list V := d.*2.
Definition mem (k : string) (d : t) : bool := bool_decide (is_Some (get k d)).
End dict.
Arguments t : clear implicits.
End Dict.

(** ** Exceptions, log records *)

Inductive exn :=
| KeyError (key : string)
| AttributeError
| OSError (errno : Z)
| DBusException
| CancelledError.

Inductive level := INFO | WARNING | ERROR.

(** One constructor per format string of the source. *)
Inductive message :=
| AddingDevice (device : string)          (* "Adding device {device}" *)
| AlreadyPresent (device : string)        (* "device {device} is already present" *)
| RemovingDevice (device : string)        (* "Removing device {device}" *)
| CreateMonitorFor (device : string)      (* "create monitor for {device}" *)
| MonitorStarts (name : string)           (* "monitor for {device.name} starts" *)
| MonitorExits (name : string)            (* "monitor for {device.name} exits" *)
| Disconnected (name : string)            (* "{device.name} disconnected, exit monitor" *)
| MonitorFailed (path : string) (errno : Z) (* "{device} monitor failed with error {err}" *)
| InhibitingIdle                          (* "Inhibiting idle" *)
| ReleasingIdleLock                       (* "Releasing idle lock" *)
| InhibitTaskExits.                       (* "Inhibit task exits" *)

Record record := LogRecord {
  logger : string;
  levelname : level;
  msg : message
}.

(** ** The objects *)

(** An [evdev.InputDevice]. *)
Record InputDevice := {
  path : string;
  name : string;
  is_open : bool
}.

(** Where an [asyncio.Task] running [monitor_gamepad_events] stands:
    created but not yet stepped, suspended in [async_read_loop], or done
    ([Finished true] when the task counts as cancelled). *)
Inductive phase := Created | Reading | Finished (cancelled : bool).

Record Task := {
  coro_device : nat;               (* the InputDevice given to the coroutine *)
  task_phase : phase;
  must_cancel : bool;              (* cancel() was requested and not yet delivered *)
  done_callback : option string    (* partial(self.finish_removing_device, device) *)
}.

Record World := {
  (* GamepadsWatcher *)
  gamepad_active : bool;
  started : bool;
  tasks : Dict.t (option nat);
  devices : Dict.t nat;
  (* IdleLock *)
  fd : option nat;
  (* inhibit_idle_when_gamepads_active: None while it loops, Some e once the
     coroutine has ended with exception e *)
  bridge : option exn;
  (* asyncio: tasks by identity, exceptions that reached the loop *)
  loop_tasks : list Task;
  loop_exceptions : list exn;
  (* evdev: InputDevice objects by identity *)
  evdev : list InputDevice;
  (* logind: inhibitor descriptors this process holds open *)
  inhibitors : list nat;
  (* logging *)
  log : list record
}.

Definition set_gamepad_active (b : bool) (w : World) : World :=
  {| gamepad_active := b; started := started w; tasks := tasks w;
     devices := devices w; fd := fd w; bridge := bridge w;
     loop_tasks := loop_tasks w; loop_exceptions := loop_exceptions w;
     evdev := evdev w; inhibitors := inhibitors w; log := log w |}.

Definition set_started (b : bool) (w : World) : World :=
  {| gamepad_active := gamepad_active w; started := b; tasks := tasks w;
     devices := devices w; fd := fd w; bridge := bridge w;
     loop_tasks := loop_tasks w; loop_exceptions := loop_exceptions w;
     evdev := evdev w; inhibitors := inhibitors w; log := log w |}.

Definition set_tasks (d : Dict.t (option nat)) (w : World) : World :=
  {| gamepad_active := gamepad_active w; started := started w; tasks := d;
     devices := devices w; fd := fd w; bridge := bridge w;
     loop_tasks := loop_tasks w; loop_exceptions := loop_exceptions w;
     evdev := evdev w; inhibitors := inhibitors w; log := log w |}.

Definition set_devices (d : Dict.t nat) (w : World) : World :=
  {| gamepad_active := gamepad_active w; started := started w; tasks := tasks w;
     devices := d; fd := fd w; bridge := bridge w;
     loop_tasks := loop_tasks w; loop_exceptions := loop_exceptions w;
     evdev := evdev w; inhibitors := inhibitors w; log := log w |}.

Definition set_fd (f : option nat) (w : World) : World :=
  {| gamepad_active := gamepad_active w; started := started w; tasks := tasks w;
     devices := devices w; fd := f; bridge := bridge w;
     loop_tasks := loop_tasks w; loop_exceptions := loop_exceptions w;
     evdev := evdev w; inhibitors := inhibitors w; log := log w |}.

Definition set_bridge (b : option exn) (w : World) : World :=
  {| gamepad_active := gamepad_active w; started := started w; tasks := tasks w;
     devices := devices w; fd := fd w; bridge := b;
     loop_tasks := loop_tasks w; loop_exceptions := loop_exceptions w;
     evdev := evdev w; inhibitors := inhibitors w; log := log w |}.

Definition set_loop_tasks (l : list Task) (w : World) : World :=
  {| gamepad_active := gamepad_active w; started := started w; tasks := tasks w;
     devices := devices w; fd := fd w; bridge := bridge w;
     loop_tasks := l; loop_exceptions := loop_exceptions w;
     evdev := evdev w; inhibitors := inhibitors w; log := log w |}.

Definition set_loop_exceptions (l : list exn) (w : World) : World :=
  {| gamepad_active := gamepad_active w; started := started w; tasks := tasks w;
     devices := devices w; fd := fd w; bridge := bridge w;
     loop_tasks := loop_tasks w; loop_exceptions := l;
     evdev := evdev w; inhibitors := inhibitors w; log := log w |}.

Definition set_evdev (l : list InputDevice) (w : World) : World :=
  {| gamepad_active := gamepad_active w; started := started w; tasks := tasks w;
     devices := devices w; fd := fd w; bridge := bridge w;
     loop_tasks := loop_tasks w; loop_exceptions := loop_exceptions w;
     evdev := l; inhibitors := inhibitors w; log := log w |}.

Definition set_inhibitors (l : list nat) (w : World) : World :=
  {| gamepad_active := gamepad_active w; started := started w; tasks := tasks w;
     devices := devices w; fd := fd w; bridge := bridge w;
     loop_tasks := loop_tasks w; loop_exceptions := loop_exceptions w;
     evdev := evdev w; inhibitors := l; log := log w |}.

Definition set_log (l : list record) (w : World) : World :=
  {| gamepad_active := gamepad_active w; started := started w; tasks := tasks w;
     devices := devices w; fd := fd w; bridge := bridge w;
     loop_tasks := loop_tasks w; loop_exceptions := loop_exceptions w;
     evdev := evdev w; inhibitors := inhibitors w; log := l |}.

(** ** The monad: state plus Python exceptions *)

Definition M (A : Type) : Type := World -> (exn + A) * World.

#[global] Instance M_ret : MRet M := λ A (a : A) w, (inr a, w).

#[global] Instance M_bind : MBind M := λ A B (f : A -> M B) (c : M A) w,
  match c w with
  | (inr a, w') => f a w'
  | (inl e, w') => (inl e, w')
  end.

Definition raise {A} (e : exn) : M A := λ w, (inl e, w).
Definition gets {A} (f : World -> A) : M A := λ w, (inr (f w), w).
Definition modify (f : World -> World) : M unit := λ w, (inr (), f w).

(** [try: c  except <those e with handler e = Some h>: h]. *)
Definition try_except {A} (c : M A) (handler : exn -> option (M A)) : M A :=
  λ w, match c w with
       | (inr a, w') => (inr a, w')
       | (inl e, w') =>
           match handler e with
           | Some h => h w'
           | None => (inl e, w')
           end
       end.

(** [for x in l: body x]. *)
Fixpoint for_ {A} (l : list A) (body : A -> M unit) : M unit :=
  match l with
  | [] => mret ()
  | x :: r => body x;; for_ r body
  end.

Definition exec {A} (c : M A) (w : World) : World := (c w).2.
Definition outcome {A} (c : M A) (w : World) : exn + A := (c w).1.

Definition logging (lg : string) (lv : level) (m : message) : M unit :=
  modify (λ w, set_log (log w ++ [LogRecord lg lv m]) w).

(** ** The outside world as the program sees it *)

Definition opened (device nm : string) : InputDevice :=
  {| path := device; name := nm; is_open := true |}.

Definition closed (d : InputDevice) : InputDevice :=
  {| path := path d; name := name d; is_open := false |}.

Definition scheduled (gamepad : nat) : Task :=
  {| coro_device := gamepad; task_phase := Created;
     must_cancel := false; done_callback := None |}.

Definition with_callback (cb : option string) (k : Task) : Task :=
  {| coro_device := coro_device k; task_phase := task_phase k;
     must_cancel := must_cancel k; done_callback := cb |}.

Definition cancel_requested (k : Task) : Task :=
  match task_phase k with
  | Finished _ => k
  | _ => {| coro_device := coro_device k; task_phase := task_phase k;
            must_cancel := true; done_callback := done_callback k |}
  end.

Definition in_phase (p : phase) (k : Task) : Task :=
  {| coro_device := coro_device k; task_phase := p;
     must_cancel := false; done_callback := done_callback k |}.

(** What [evdev.InputDevice(path)] answers: the device's name, or the
    [errno] of the [OSError] it raises. *)
Definition opener := string -> Z + string.

(** [evdev.InputDevice(device)]: a new object, identified by its index. *)
Definition evdev_InputDevice (open : opener) (device : string) : M nat :=
  match open device with
  | inl errno => raise (OSError errno)
  | inr nm =>
      h ← gets (λ w, length (evdev w));
      modify (λ w, set_evdev (evdev w ++ [opened device nm]) w);;
      mret h
  end.

(** [gamepad.close()]. *)
Definition InputDevice_close (h : nat) : M unit :=
  modify (λ w, set_evdev (alter closed h (evdev w)) w).

(** [asyncio.create_task(self.monitor_gamepad_events(gamepad))]: the task is
    scheduled; its body has not run yet. *)
Definition asyncio_create_task (gamepad : nat) : M nat :=
  t ← gets (λ w, length (loop_tasks w));
  modify (λ w, set_loop_tasks (loop_tasks w ++ [scheduled gamepad]) w);;
  mret t.

(** [task.add_done_callback(partial(self.finish_removing_device, device))]. *)
Definition add_done_callback (t : nat) (device : string) : M unit :=
  modify (λ w, set_loop_tasks
    (alter (with_callback (Some device)) t (loop_tasks w)) w).

(** [task.cancel()] on a task object: nothing happens to a task that is
    done; otherwise a [CancelledError] is thrown into the coroutine the next
    time the loop steps it. *)
Definition Task_cancel (t : nat) : M unit :=
  modify (λ w, set_loop_tasks (alter cancel_requested t (loop_tasks w)) w).

(** [x.cancel()] where [x] is a value of the [tasks] dict: [None] has no
    such attribute. *)
Definition cancel (x : option nat) : M unit :=
  match x with
  | None => raise AttributeError
  | Some t => Task_cancel t
  end.

(** [x.add_done_callback(...)] where [x] is a value of the [tasks] dict. *)
Definition add_done_callback_to (x : option nat) (device : string) : M unit :=
  match x with
  | None => raise AttributeError
  | Some t => add_done_callback t device
  end.

(** ** class GamepadsWatcher *)

Definition lg_watcher : string := "GamepadsWatcher".

(** [self.tasks[device]]. *)
Definition tasks_getitem (device : string) : M (option nat) :=
  d ← gets tasks;
  match Dict.get device d with
  | Some x => mret x
  | None => raise (KeyError device)
  end.

(** [self.tasks.get(device, None)]: an absent key and a key bound to [None]
    give the same answer. *)
Definition tasks_get (device : string) : M (option nat) :=
  d ← gets tasks;
  mret (default None (Dict.get device d)).

(** [del self.tasks[device]]. *)
Definition tasks_delitem (device : string) : M unit :=
  d ← gets tasks;
  match Dict.get device d with
  | Some _ => modify (set_tasks (Dict.remove device d))
  | None => raise (KeyError device)
  end.

(** [self.devices[device]]. *)
Definition devices_getitem (device : string) : M nat :=
  d ← gets devices;
  match Dict.get device d with
  | Some h => mret h
  | None => raise (KeyError device)
  end.

(** [del self.devices[device]]. *)
Definition devices_delitem (device : string) : M unit :=
  d ← gets devices;
  match Dict.get device d with
  | Some _ => modify (set_devices (Dict.remove device d))
  | None => raise (KeyError device)
  end.

(** [GamepadsWatcher()] together with a fresh loop and [IdleLock()]. *)
Definition init : World :=
  {| gamepad_active := false; started := false; tasks := Dict.empty;
     devices := Dict.empty; fd := None; bridge := None;
     loop_tasks := []; loop_exceptions := [];
     evdev := []; inhibitors := []; log := [] |}.

Definition set_init_devices (devs : list string) : M unit :=
  for_ devs (λ device, modify (λ w, set_tasks (Dict.set device None (tasks w)) w)).

Definition create_monitor_task (open : opener) (device : string) : M unit :=
  gamepad ← evdev_InputDevice open device;
  modify (λ w, set_devices (Dict.set device gamepad (devices w)) w);;
  t ← asyncio_create_task gamepad;
  modify (λ w, set_tasks (Dict.set device (Some t) (tasks w)) w);;
  x ← tasks_getitem device;
  add_done_callback_to x device.

Definition add_device (open : opener) (device : string) : M unit :=
  logging lg_watcher INFO (AddingDevice device);;
  task ← tasks_get device;
  match task with
  | Some _ => logging lg_watcher WARNING (AlreadyPresent device)
  | None =>
      st ← gets started;
      if negb st
      then modify (λ w, set_tasks (Dict.set device None (tasks w)) w)
      else create_monitor_task open device
  end.

Definition remove_device (device : string) : M unit :=
  logging lg_watcher INFO (RemovingDevice device);;
  task ← tasks_get device;
  match task with
  | None =>
      try_except (tasks_delitem device)
        (λ e, match e with KeyError _ => Some (mret ()) | _ => None end)
  | Some t =>
      Task_cancel t;;
      gamepad ← devices_getitem device;
      InputDevice_close gamepad;;
      devices_delitem device
  end.

Definition finish_removing_device (device : string) : M unit :=
  tasks_delitem device.

Definition start (open : opener) : M unit :=
  modify (set_started true);;
  ds ← gets (λ w, Dict.keys (tasks w));
  for_ ds (λ device,
    logging lg_watcher INFO (CreateMonitorFor device);;
    create_monitor_task open device).

(** [stop] up to its [await]: the flag, the snapshot, the cancellations.
    The value is the snapshot handed to [asyncio.gather]. *)
Definition stop_begin : M (list (option nat)) :=
  modify (set_started false);;
  ts ← gets (λ w, Dict.values (tasks w));
  for_ ts cancel;;
  mret ts.

Definition get_and_reset_active : M bool :=
  active ← gets gamepad_active;
  modify (set_gamepad_active false);;
  mret active.

(** *** The coroutine [monitor_gamepad_events]

    The loop resumes the coroutine with what the pending read produced. *)
Inductive read_result :=
| InputEvent                   (* async_read_loop yields one event *)
| ReadError (errno : Z).       (* the read raises OSError(errno) *)

Definition set_phase (t : nat) (p : phase) : M unit :=
  modify (λ w, set_loop_tasks (alter (in_phase p) t (loop_tasks w)) w).

Definition device_name (h : nat) : M string :=
  gets (λ w, default "" (name <$> evdev w !! h)).

Definition device_path (h : nat) : M string :=
  gets (λ w, default "" (path <$> evdev w !! h)).

(** One resumption of the coroutine of task [t] by the event loop.  A task
    whose [cancel()] was requested receives [CancelledError] instead of the
    read's result; when that happens before the body was entered the [try]
    is never reached and the task ends cancelled. *)
Definition monitor_gamepad_events (t : nat) (r : read_result) : M unit :=
  ts ← gets loop_tasks;
  match ts !! t with
  | None => mret ()
  | Some k =>
      nm ← device_name (coro_device k);
      match task_phase k with
      | Finished _ => mret ()
      | Created =>
          if must_cancel k then set_phase t (Finished true)
          else
            logging lg_watcher INFO (MonitorStarts nm);;
            set_phase t Reading
      | Reading =>
          if must_cancel k then
            (* except asyncio.CancelledError *)
            logging lg_watcher INFO (MonitorExits nm);;
            set_phase t (Finished false)
          else
            match r with
            | InputEvent => modify (set_gamepad_active true)
            | ReadError errno =>
                (* except OSError as err *)
                (if decide (errno = 19%Z)
                 then logging lg_watcher INFO (Disconnected nm)
                 else
                   p ← device_path (coro_device k);
                   logging lg_watcher ERROR (MonitorFailed p errno));;
                set_phase t (Finished false)
            end
      end
  end.

(** The loop runs the done callback of a finished task, once. *)
Definition Task_run_callback (t : nat) : M unit :=
  ts ← gets loop_tasks;
  match ts !! t with
  | Some {| task_phase := Finished _; done_callback := Some device;
            coro_device := h; must_cancel := c |} =>
      modify (λ w, set_loop_tasks
        (alter (with_callback None) t (loop_tasks w)) w);;
      finish_removing_device device
  | _ => mret ()
  end.

(** ** class IdleLock *)

Definition lg_lock : string := "IdleLock".

(** [self.iface.Inhibit("shutdown:idle", ...)]: logind answers with a new
    descriptor ([Some]) or the call raises ([None]). *)
Definition Inhibit (reply : option nat) : M nat :=
  match reply with
  | None => raise DBusException
  | Some h => modify (λ w, set_inhibitors (inhibitors w ++ [h]) w);; mret h
  end.

(** [os.close(fd)]: the inhibitor is released. *)
Fixpoint remove_first (h : nat) (l : list nat) : list nat :=
  match l with
  | [] => []
  | x :: r => if decide (h = x) then r else x :: remove_first h r
  end.

Definition os_close (h : nat) : M unit :=
  modify (λ w, set_inhibitors (remove_first h (inhibitors w)) w).

Definition lock_idle (reply : option nat) : M unit :=
  f ← gets fd;
  match f with
  | Some _ => mret ()
  | None =>
      logging lg_lock INFO InhibitingIdle;;
      h ← Inhibit reply;
      modify (set_fd (Some h))
  end.

Definition unlock_idle : M unit :=
  f ← gets fd;
  match f with
  | None => mret ()
  | Some h =>
      logging lg_lock INFO ReleasingIdleLock;;
      os_close h;;
      modify (set_fd None)
  end.

(** ** The coroutine [inhibit_idle_when_gamepads_active]

    Once it has built its [IdleLock] the coroutine is suspended in
    [asyncio.sleep(interval)] and resumed either because the interval
    elapsed or because the task was cancelled. *)
Inductive wake :=
| Elapsed (reply : option nat)   (* and what logind would answer to Inhibit *)
| Cancel.

Definition lg_root : string := "root".

(** The body of the [while True] after the sleep returned. *)
Definition sample (reply : option nat) : M unit :=
  active ← get_and_reset_active;
  if (active : bool) then lock_idle reply else unlock_idle.

(** One resumption, inside the [try ... except asyncio.CancelledError]. *)
Definition inhibit_idle_when_gamepads_active (k : wake) : M unit :=
  try_except
    (match k with
     | Elapsed reply => sample reply
     | Cancel => raise CancelledError
     end)
    (λ e, match e with
          | CancelledError =>
              Some (logging lg_root INFO InhibitTaskExits;;
                    unlock_idle;;
                    raise CancelledError)
          | _ => None
          end).

(** ** The event loop

    Everything runs on one thread; an [event] is one callback or one task
    step the loop runs to completion. *)
Inductive event :=
| CbAdd (open : opener) (device : string)   (* call_soon_threadsafe(cb_add, path) *)
| CbRemove (device : string)                (* call_soon_threadsafe(cb_remove, path) *)
| StepTask (t : nat) (r : read_result)
| DoneCallback (t : nat)
| WakeInhibit (k : wake).

(** An exception that escapes a callback is handed to the loop's exception
    handler and the loop goes on. *)
Definition in_loop (c : M unit) (w : World) : World :=
  match c w with
  | (inr _, w') => w'
  | (inl e, w') => set_loop_exceptions (loop_exceptions w' ++ [e]) w'
  end.

(** One event.  A resumption of the sampling coroutine that raises ends
    it, and a coroutine that has ended is not resumed. *)
Definition step (ev : event) (w : World) : World :=
  match ev with
  | CbAdd open device => in_loop (add_device open device) w
  | CbRemove device => in_loop (remove_device device) w
  | StepTask t r => in_loop (monitor_gamepad_events t r) w
  | DoneCallback t => in_loop (Task_run_callback t) w
  | WakeInhibit k =>
      match bridge w with
      | Some _ => w
      | None =>
          match inhibit_idle_when_gamepads_active k w with
          | (inr _, w') => w'
          | (inl e, w') => set_bridge (Some e) w'
          end
      end
  end.

Definition run (evs : list event) (w : World) : World :=
  foldl (λ w ev, step ev w) w evs.

(** [task.done()]. *)
Definition task_finished (w : World) (t : nat) : bool :=
  match task_phase <$> loop_tasks w !! t with
  | Some (Finished _) => true
  | _ => false
  end.

(** [task.cancelled()]. *)
Definition task_cancelled (w : World) (t : nat) : bool :=
  match task_phase <$> loop_tasks w !! t with
  | Some (Finished true) => true
  | _ => false
  end.

(** [asyncio.gather] over the tasks [ts] as the awaiting [stop] sees it:
    still pending ([None]), raising because a child ended cancelled, or
    returning because all children have finished. *)
Definition gather (ts : list nat) (w : World) : option (exn + unit) :=
  if existsb (task_cancelled w) ts then Some (inl CancelledError)
  else if forallb (task_finished w) ts then Some (inr ())
  else None.

(** The loop runs the events of a schedule until [gather] resolves.
    [None]: the schedule ran out while the awaiter was still waiting. *)
Fixpoint await_gather (ts : list nat) (evs : list event) (w : World)
  : option ((exn + unit) * World) :=
  match gather ts w with
  | Some r => Some (r, w)
  | None =>
      match evs with
      | [] => None
      | ev :: evs' => await_gather ts evs' (step ev w)
      end
  end.

(** [await watcher.stop()] under a schedule: the synchronous part, then the
    wait for [gather]. *)
Definition stop (evs : list event) (w : World)
  : option ((exn + unit) * World) :=
  match stop_begin w with
  | (inl e, w') => Some (inl e, w')
  | (inr ts, w') => await_gather (omap id ts) evs w'
  end.

(** * The vocabulary of the properties *)

(** Unfolds the monad down to functions on [World]. *)
Ltac unfold_monad :=
  unfold mbind, M_bind, mret, M_ret, gets, modify, raise, try_except, logging,
    exec, outcome in *.

(** The world with one more log record. *)
Definition logged (lg : string) (lv : level) (m : message) (w : World) : World :=
  set_log (log w ++ [LogRecord lg lv m]) w.

(** The world after a successful [create_monitor_task]. *)
Definition monitored (device nm : string) (w : World) : World :=
  {| gamepad_active := gamepad_active w; started := started w;
     tasks := Dict.set device (Some (length (loop_tasks w))) (tasks w);
     devices := Dict.set device (length (evdev w)) (devices w);
     fd := fd w; bridge := bridge w;
     loop_tasks :=
       loop_tasks w ++ [with_callback (Some device) (scheduled (length (evdev w)))];
     loop_exceptions := loop_exceptions w;
     evdev := evdev w ++ [opened device nm];
     inhibitors := inhibitors w; log := log w |}.

(** ** The invariant of the watcher

    A task whose done callback has not run yet is the value stored under the
    path its callback was bound to, and the other way round; a task whose
    callback has run is finished; the handle in [devices] is the one the
    task reads; the descriptors held are exactly [fd]. *)
Record Inv (w : World) : Prop := {
  inv_nodup : NoDup (Dict.keys (tasks w));
  inv_nodup_devices : NoDup (Dict.keys (devices w));
  inv_cb : forall t k device,
    loop_tasks w !! t = Some k -> done_callback k = Some device ->
    Dict.get device (tasks w) = Some (Some t);
  inv_entry : forall device t,
    Dict.get device (tasks w) = Some (Some t) ->
    exists k, loop_tasks w !! t = Some k /\ done_callback k = Some device;
  inv_reaped : forall t k,
    loop_tasks w !! t = Some k -> done_callback k = None ->
    exists c, task_phase k = Finished c;
  inv_dev : forall t k device,
    loop_tasks w !! t = Some k -> done_callback k = Some device ->
    exists d, evdev w !! coro_device k = Some d /\ path d = device;
  inv_handle : forall device t h k,
    Dict.get device (tasks w) = Some (Some t) ->
    Dict.get device (devices w) = Some h ->
    loop_tasks w !! t = Some k -> coro_device k = h;
  inv_lock : inhibitors w = option_list (fd w)
}.

(** No task is stored under [device]: the key is absent or bound to [None]. *)
Definition untracked (device : string) (w : World) : Prop :=
  default None (Dict.get device (tasks w)) = None.

(** ** Reachable worlds

    [main] builds the watcher, registers the devices found at start-up,
    starts the watcher once and lets the loop run; [stop] may begin at any
    point.  [start] is taken only while no entry of [tasks] holds a task. *)
Inductive reachable : World -> Prop :=
| reach_init devs : reachable (exec (set_init_devices devs) init)
| reach_step ev w : reachable w -> reachable (step ev w)
| reach_start open w :
    reachable w -> (forall device, untracked device w) ->
    reachable (exec (start open) w)
| reach_stop w : reachable w -> reachable (exec stop_begin w).

(** ** The lock, the monitors, the snapshot of [stop] *)

(** What the lock controller and its coroutine own. *)
Definition lock_state (w : World) : option nat * list nat * option exn :=
  (fd w, inhibitors w, bridge w).

(** A call on the [IdleLock], with logind's answer where one is asked. *)
Inductive lock_call := LockIdle (reply : option nat) | UnlockIdle.

Definition call_lock (w : World) (c : lock_call) : World :=
  match c with
  | LockIdle reply => exec (lock_idle reply) w
  | UnlockIdle => exec unlock_idle w
  end.

(** [IdleLock()] in any surrounding world: no descriptor, nothing held. *)
Definition fresh_lock (w : World) : World := set_fd None (set_inhibitors [] w).

(** A sampling tick: the sleep of the loop has elapsed. *)
Definition tick (reply : option nat) : event := WakeInhibit (Elapsed reply).

(** The task [t] is a monitor of the device node [p] that has not ended. *)
Definition monitors (w : World) (p : string) (t : nat) : bool :=
  match loop_tasks w !! t with
  | Some k =>
      match task_phase k with
      | Finished _ => false
      | _ => bool_decide (path <$> evdev w !! coro_device k = Some p)
      end
  | None => false
  end.

(** The monitors of [p] that have not ended, by task identity. *)
Definition running_monitors (w : World) (p : string) : list nat :=
  filter (λ t, monitors w p t = true) (seq 0 (length (loop_tasks w))).

(** Where the task [t] stands, if there is such a task. *)
Definition phase_of (w : World) (t : nat) : option phase :=
  task_phase <$> loop_tasks w !! t.

(** The record a monitor of the device [d] writes when it ends: on
    [CancelledError] if [cancelled], else on the [OSError] of the read. *)
Definition ending_record (d : InputDevice) (cancelled : bool) (errno : Z) : record :=
  if cancelled then LogRecord lg_watcher INFO (MonitorExits (name d))
  else if decide (errno = 19%Z)
       then LogRecord lg_watcher INFO (Disconnected (name d))
       else LogRecord lg_watcher ERROR (MonitorFailed (path d) errno).

(** C8 as stated: whenever the path has an entry, [add_device] writes a
    warning and changes nothing but the log. *)
Definition duplicate_add_warns (w : World) (device : string) : Prop :=
  is_Some (Dict.get device (tasks w)) ->
  forall open,
    let w' := exec (add_device open device) w in
    (exists rec, rec ∈ log w' /\ levelname rec = WARNING)
    /\ tasks w' = tasks w /\ loop_tasks w' = loop_tasks w
    /\ devices w' = devices w /\ started w' = started w.

(** The tasks after [task.cancel()] on each element of a snapshot. *)
Definition cancel_each (ts : list (option nat)) (l : list Task) : list Task :=
  foldl (λ l x, match x with
                | Some t => alter cancel_requested t l
                | None => l
                end) l ts.

(** Every task of [l] is still in [l'], and finished if it was. *)
Definition advances (l l' : list Task) : Prop :=
  forall t k, l !! t = Some k ->
    exists k', l' !! t = Some k'
               /\ forall c, task_phase k = Finished c -> task_phase k' = Finished c.

(** The loop steps each task of [l] once. *)
Definition deliveries (l : list nat) : list event :=
  (λ t, StepTask t InputEvent) <$> l.

(** The task either ended by itself or waits in its read with a
    cancellation pending. *)
Definition winding_down (w : World) (t : nat) : Prop :=
  exists k, loop_tasks w !! t = Some k
    /\ (task_phase k = Finished false
        \/ (task_phase k = Reading /\ must_cancel k = true)).

(** ** Scenarios *)

Definition event3 : string := "/dev/input/event3".
Definition event5 : string := "/dev/input/event5".

(** Every device node opens and calls itself a gamepad. *)
Definition pad : opener := λ _, inr "Gamepad"%string.

(** [main] up to [watcher.start()], with one controller found at start-up. *)
Definition registered : World := exec (set_init_devices [event3]) init.
Definition booted : World := exec (start pad) registered.

(** The monitor has entered its read and seen one input event. *)
Definition playing : World :=
  run [StepTask 0 InputEvent; StepTask 0 InputEvent] booted.

(** The next tick took the lock. *)
Definition locked : World := step (tick (Some 7)) playing.

(** Two controllers, both monitors in their read. *)
Definition two_pads : World :=
  run [StepTask 0 InputEvent; StepTask 1 InputEvent]
    (exec (start pad) (exec (set_init_devices [event3; event5]) init)).

(** C5 as stated, at a world [w] where the flag is set and no descriptor is
    held: after the tick whose request logind refuses an error record was
    written, no descriptor is held, the loop still runs, and the next tick,
    with activity in between and logind willing, takes the lock. *)
Definition recovers_from_inhibit_failure (w : World) : Prop :=
  let w1 := step (tick None) w in
  (exists rec, rec ∈ log w1 /\ levelname rec = ERROR)
  /\ fd w1 = None
  /\ bridge w1 = None
  /\ is_Some (fd (run [StepTask 0 InputEvent; tick (Some 7)] w1)).

(** ** class GamepadsFinder

    The udev observer runs [_on_new_event] on its own thread; what it does
    there is write one log record and hand a callback to the loop. *)

Module GamepadsFinder.

Definition SUBSYSTEM : string := "input".
Definition SYS_NAME_PREFIX : string := "event".

(** A [pyudev.Device] as the observer delivers it. *)
Record Device := {
  action : option string;
  properties : Dict.t string;
  sys_name : string;
  device_node : option string
}.

(** What [properties.asbool] raises. *)
Inductive udev_exn :=
| PropertyKeyError (key : string)        (* the property is not set *)
| PropertyValueError (value : string).   (* it is neither "1" nor "0" *)

(** [device.properties.asbool(key)]. *)
Definition asbool (props : Dict.t string) (key : string) : udev_exn + bool :=
  match Dict.get key props with
  | None => inl (PropertyKeyError key)
  | Some v =>
      if decide (v = "1"%string) then inr true
      else if decide (v = "0"%string) then inr false
      else inl (PropertyValueError v)
  end.

Definition get_device_path (device : Device) : option string :=
  device_node device.

Inductive callback := cb_add | cb_remove.

(** What one call of [_on_new_event] does, in order. *)
Inductive effect :=
| LoggerInfo (device : Device)           (* "{device} action {device.action}" *)
| CallSoonThreadsafe (cb : callback) (node : option string).

Definition on_new_event (device : Device) : udev_exn + list effect :=
  if bool_decide (action device ∈ [Some "add"%string; Some "remove"%string])
  then
    match asbool (properties device) "ID_INPUT_JOYSTICK" with
    | inl (PropertyKeyError _) => inr []     (* except KeyError: return *)
    | inl e => inl e
    | inr false => inr []
    | inr true =>
        if String.prefix SYS_NAME_PREFIX (sys_name device)
        then
          inr [LoggerInfo device;
               CallSoonThreadsafe
                 (if decide (action device = Some "add"%string)
                  then cb_add else cb_remove)
                 (get_device_path device)]
        else inr []
    end
  else inr [].

(** The loop event a handed-over callback becomes, for a device that has a
    node. *)
Definition scheduled (open : opener) (e : effect) : option event :=
  match e with
  | CallSoonThreadsafe cb_add (Some p) => Some (CbAdd open p)
  | CallSoonThreadsafe cb_remove (Some p) => Some (CbRemove p)
  | _ => None
  end.

(** The world after the loop has run what one udev event handed over. *)
Definition delivered (open : opener) (device : Device) (w : World) : World :=
  match on_new_event device with
  | inr effs => run (omap (scheduled open) effs) w
  | inl _ => w
  end.

End GamepadsFinder.

(** ** More vocabulary: start-up, handles, windows *)

(** The body of the [for] of [start]. *)
Definition start_body (open : opener) (device : string) : M unit :=
  logging lg_watcher INFO (CreateMonitorFor device);;
  create_monitor_task open device.

(** [set_init_devices] followed by [start], the two calls [main] makes on
    the watcher before it waits. *)
Definition startup (found : list string) (open : opener) : M unit :=
  set_init_devices found;; start open.

(** Every handle stored in [devices] is open and was opened on the path it
    is stored under. *)
Definition handles_open (w : World) : Prop :=
  forall p h, Dict.get p (devices w) = Some h ->
    exists d, evdev w !! h = Some d /\ is_open d = true /\ path d = p.

Definition is_tick (ev : event) : bool :=
  match ev with WakeInhibit (Elapsed _) => true | _ => false end.

Definition is_input (ev : event) : bool :=
  match ev with StepTask _ InputEvent => true | _ => false end.

(** The task was cancelled before its coroutine took its first step: it is
    still waiting for that step, or has ended cancelled. *)
Definition cancelled_unstarted (w : World) (t : nat) : Prop :=
  exists k, loop_tasks w !! t = Some k
    /\ ((task_phase k = Created /\ must_cancel k = true)
        \/ task_phase k = Finished true).

(** What the loop of [start] has done when every open succeeded. *)
Record started_on (ds : list string) (w w' : World) : Prop := {
  so_started : started w' = started w;
  so_tasks : length (loop_tasks w') = length (loop_tasks w) + length ds;
  so_evdev : length (evdev w') = length (evdev w) + length ds;
  so_new : forall p, p ∈ ds ->
    exists t, length (loop_tasks w) <= t
              /\ Dict.get p (tasks w') = Some (Some t);
  so_other : forall p, p ∉ ds -> Dict.get p (tasks w') = Dict.get p (tasks w);
  so_old : forall t, t < length (loop_tasks w) ->
    loop_tasks w' !! t = loop_tasks w !! t;
  so_created : forall t k, length (loop_tasks w) <= t ->
    loop_tasks w' !! t = Some k -> task_phase k = Created;
  so_keys : (forall p, p ∈ ds -> p ∈ Dict.keys (tasks w)) ->
    Dict.keys (tasks w') = Dict.keys (tasks w)
}.

(** * Properties *)

(** ** Dictionaries *)

Module DictFacts.
Section facts.
Context {V : Type}.
Implicit Types (d : Dict.t V) (k : string) (v : V).

Lemma get_set_eq d k v : Dict.get k (Dict.set k v d) = Some v.
Proof.
  induction d as [|[k' v'] r IH]; simpl.
  - by rewrite decide_True.
  - destruct (decide (k = k')) as [->|Hne]; simpl.
    + by rewrite decide_True.
    + by rewrite decide_False.
Qed.

Lemma get_set_ne d k k' v : k ≠ k' -> Dict.get k' (Dict.set k v d) = Dict.get k' d.
Proof.
  intros Hne. induction d as [|[k0 v0] r IH]; simpl.
  - by rewrite decide_False.
  - destruct (decide (k = k0)) as [->|Hk]; simpl.
    + by rewrite !decide_False.
    + destruct (decide (k' = k0)); auto.
Qed.

Lemma get_None_keys d k : Dict.get k d = None <-> k ∉ Dict.keys d.
Proof.
  induction d as [|[k0 v0] r IH]; simpl.
  - split; [intros _; apply not_elem_of_nil | done].
  - rewrite not_elem_of_cons. destruct (decide (k = k0)) as [->|Hne].
    + split; [done | by intros [? _]].
    + rewrite IH. split; [by split | by intros [_ ?]].
Qed.

Lemma get_Some_elem d k v : Dict.get k d = Some v -> (k, v) ∈ d.
Proof.
  induction d as [|[k0 v0] r IH]; simpl; [done|].
  destruct (decide (k = k0)) as [->|]; intros H.
  - injection H as ->. apply elem_of_cons; auto.
  - apply elem_of_cons; auto.
Qed.

Lemma get_Some_values d k v : Dict.get k d = Some v -> v ∈ Dict.values d.
Proof.
  intros H%get_Some_elem. unfold Dict.values.
  apply list_elem_of_fmap. by exists (k, v).
Qed.

Lemma elem_values_get d v : v ∈ Dict.values d -> NoDup (Dict.keys d) ->
  exists k, Dict.get k d = Some v.
Proof.
  induction d as [|[k0 v0] r IH]; simpl.
  - by intros ?%elem_of_nil.
  - intros [->|Hin]%elem_of_cons [Hk0 Hnd]%NoDup_cons.
    + exists k0. by rewrite decide_True.
    + destruct (IH Hin Hnd) as [k Hk]. exists k.
      rewrite decide_False; [done|]. intros ->.
      apply Hk0. apply eq_None_ne_Some_1 in Hk; [done|].
      by apply get_None_keys.
Qed.

Lemma set_id d k v : Dict.get k d = Some v -> Dict.set k v d = d.
Proof.
  induction d as [|[k0 v0] r IH]; simpl; [done|].
  destruct (decide (k = k0)) as [->|]; intros H.
  - by injection H as ->.
  - by rewrite IH.
Qed.

Lemma mem_spec d k : Dict.mem k d = true <-> is_Some (Dict.get k d).
Proof. unfold Dict.mem. apply bool_decide_eq_true. Qed.

Lemma mem_cons_ne d k k0 v0 : k ≠ k0 -> Dict.mem k ((k0, v0) :: d) = Dict.mem k d.
Proof. intros Hne. unfold Dict.mem. simpl. by rewrite decide_False. Qed.

Lemma keys_set d k v :
  Dict.keys (Dict.set k v d) =
    if Dict.mem k d then Dict.keys d else Dict.keys d ++ [k].
Proof.
  induction d as [|[k0 v0] r IH].
  - reflexivity.
  - simpl. destruct (decide (k = k0)) as [->|Hne].
    + replace (Dict.mem k0 ((k0, v0) :: r)) with true; [done|].
      symmetry. apply mem_spec. simpl. rewrite decide_True; by eauto.
    + rewrite mem_cons_ne by done. simpl. rewrite IH.
      by destruct (Dict.mem k r).
Qed.

Lemma NoDup_keys_set d k v : NoDup (Dict.keys d) -> NoDup (Dict.keys (Dict.set k v d)).
Proof.
  intros Hnd. rewrite keys_set. destruct (Dict.mem k d) eqn:E; [done|].
  apply NoDup_app. split_and!; [done| |apply NoDup_singleton].
  intros x Hx ->%list_elem_of_singleton.
  apply get_None_keys in Hx; [done|].
  destruct (Dict.get k d) eqn:G; [|done].
  assert (Dict.mem k d = true) by (apply mem_spec; rewrite G; eauto). congruence.
Qed.

Lemma keys_remove_sub d k x : x ∈ Dict.keys (Dict.remove k d) -> x ∈ Dict.keys d.
Proof.
  induction d as [|[k0 v0] r IH]; simpl; [done|].
  destruct (decide (k = k0)); simpl.
  - intros. apply elem_of_cons; auto.
  - intros [->|H]%elem_of_cons; apply elem_of_cons; auto.
Qed.

Lemma NoDup_keys_remove d k : NoDup (Dict.keys d) -> NoDup (Dict.keys (Dict.remove k d)).
Proof.
  induction d as [|[k0 v0] r IH]; simpl; [done|].
  intros [Hk0 Hnd]%NoDup_cons. destruct (decide (k = k0)); simpl; [done|].
  apply NoDup_cons. split; [|auto].
  intros H%keys_remove_sub. done.
Qed.

Lemma get_remove_ne d k k' : k ≠ k' -> Dict.get k' (Dict.remove k d) = Dict.get k' d.
Proof.
  intros Hne. induction d as [|[k0 v0] r IH]; simpl; [done|].
  destruct (decide (k = k0)) as [->|]; simpl.
  - by rewrite decide_False.
  - by rewrite IH.
Qed.

Lemma get_remove_eq d k : NoDup (Dict.keys d) -> Dict.get k (Dict.remove k d) = None.
Proof.
  induction d as [|[k0 v0] r IH]; simpl; [done|].
  intros [Hk0 Hnd]%NoDup_cons. destruct (decide (k = k0)) as [->|]; simpl.
  - by apply get_None_keys.
  - rewrite decide_False; auto.
Qed.

Lemma remove_absent d k : Dict.get k d = None -> Dict.remove k d = d.
Proof.
  induction d as [|[k0 v0] r IH]; simpl; [done|].
  destruct (decide (k = k0)); [done|]. intros H. by rewrite IH.
Qed.
End facts.
End DictFacts.

(** ** What each method does to the world, in closed form *)

Lemma alter_snoc {A} (f : A -> A) (l : list A) (x : A) :
  alter f (length l) (l ++ [x]) = l ++ [f x].
Proof. rewrite alter_app_r_alt by lia. by rewrite Nat.sub_diag. Qed.

Lemma create_monitor_task_eq open device w :
  create_monitor_task open device w =
    match open device with
    | inl errno => (inl (OSError errno), w)
    | inr nm => (inr (), monitored device nm w)
    end.
Proof.
  unfold create_monitor_task, evdev_InputDevice, asyncio_create_task,
    tasks_getitem, add_done_callback_to, add_done_callback.
  destruct (open device) as [errno|nm]; [done|].
  unfold_monad. simpl. rewrite DictFacts.get_set_eq. simpl.
  by rewrite alter_snoc.
Qed.

Lemma add_device_eq open device w :
  add_device open device w =
    let w0 := logged lg_watcher INFO (AddingDevice device) w in
    match Dict.get device (tasks w) with
    | Some (Some _) =>
        (inr (), logged lg_watcher WARNING (AlreadyPresent device) w0)
    | _ =>
        if started w
        then create_monitor_task open device w0
        else (inr (), set_tasks (Dict.set device None (tasks w)) w0)
    end.
Proof.
  unfold add_device, tasks_get. unfold_monad. simpl.
  destruct (Dict.get device (tasks w)) as [[t|]|]; simpl; try done;
    by destruct (started w).
Qed.

Lemma remove_device_eq device w :
  remove_device device w =
    let w0 := logged lg_watcher INFO (RemovingDevice device) w in
    match Dict.get device (tasks w) with
    | None => (inr (), w0)
    | Some None => (inr (), set_tasks (Dict.remove device (tasks w)) w0)
    | Some (Some t) =>
        let w1 := set_loop_tasks (alter cancel_requested t (loop_tasks w)) w0 in
        match Dict.get device (devices w) with
        | None => (inl (KeyError device), w1)
        | Some h =>
            (inr (), set_devices (Dict.remove device (devices w))
                       (set_evdev (alter closed h (evdev w)) w1))
        end
    end.
Proof.
  unfold remove_device, tasks_get, tasks_delitem, Task_cancel,
    devices_getitem, devices_delitem, InputDevice_close.
  unfold_monad. simpl.
  destruct (Dict.get device (tasks w)) as [[t|]|] eqn:E; simpl; try done.
  - destruct (Dict.get device (devices w)) eqn:D; simpl; [|done].
    by rewrite D.
  - by rewrite E.
  - by rewrite E.
Qed.

Lemma monitor_gamepad_events_eq t r w :
  monitor_gamepad_events t r w =
    match loop_tasks w !! t with
    | None => (inr (), w)
    | Some k =>
        let nm := default ""%string (name <$> evdev w !! coro_device k) in
        let pt := default ""%string (path <$> evdev w !! coro_device k) in
        let finish b w' :=
          (inr (), set_loop_tasks
                     (alter (in_phase (Finished b)) t (loop_tasks w)) w') in
        match task_phase k, must_cancel k, r with
        | Finished _, _, _ => (inr (), w)
        | Created, true, _ => finish true w
        | Created, false, _ =>
            (inr (), set_loop_tasks (alter (in_phase Reading) t (loop_tasks w))
                       (logged lg_watcher INFO (MonitorStarts nm) w))
        | Reading, true, _ =>
            finish false (logged lg_watcher INFO (MonitorExits nm) w)
        | Reading, false, InputEvent => (inr (), set_gamepad_active true w)
        | Reading, false, ReadError errno =>
            if decide (errno = 19%Z)
            then finish false (logged lg_watcher INFO (Disconnected nm) w)
            else finish false
                   (logged lg_watcher ERROR (MonitorFailed pt errno) w)
        end
    end.
Proof.
  unfold monitor_gamepad_events, set_phase, device_name, device_path. unfold_monad. simpl.
  destruct (loop_tasks w !! t) as [k|]; [|done].
  destruct (task_phase k), (must_cancel k); try done; destruct r; try done;
    by destruct (decide _).
Qed.

Lemma Task_run_callback_eq t w :
  Task_run_callback t w =
    match loop_tasks w !! t with
    | Some k =>
        match task_phase k, done_callback k with
        | Finished _, Some device =>
            let w1 :=
              set_loop_tasks (alter (with_callback None) t (loop_tasks w)) w in
            match Dict.get device (tasks w) with
            | Some _ => (inr (), set_tasks (Dict.remove device (tasks w)) w1)
            | None => (inl (KeyError device), w1)
            end
        | _, _ => (inr (), w)
        end
    | None => (inr (), w)
    end.
Proof.
  unfold Task_run_callback, finish_removing_device, tasks_delitem.
  unfold_monad. simpl.
  destruct (loop_tasks w !! t) as [[h p c cb]|]; [|done]. simpl.
  destruct p; try done. destruct cb; try done.
  by destruct (Dict.get _ _).
Qed.

Lemma lock_idle_eq reply w :
  lock_idle reply w =
    match fd w, reply with
    | Some _, _ => (inr (), w)
    | None, Some h =>
        (inr (), set_fd (Some h)
                   (set_inhibitors (inhibitors w ++ [h])
                      (logged lg_lock INFO InhibitingIdle w)))
    | None, None => (inl DBusException, logged lg_lock INFO InhibitingIdle w)
    end.
Proof.
  unfold lock_idle, Inhibit. unfold_monad. simpl.
  destruct (fd w); [done|]. by destruct reply.
Qed.

Lemma unlock_idle_eq w :
  unlock_idle w =
    match fd w with
    | None => (inr (), w)
    | Some h =>
        (inr (), set_fd None
                   (set_inhibitors (remove_first h (inhibitors w))
                      (logged lg_lock INFO ReleasingIdleLock w)))
    end.
Proof.
  unfold unlock_idle, os_close. unfold_monad. simpl. by destruct (fd w).
Qed.

(** A field the loop's exception handler does not touch is what the
    callback left. *)
Lemma in_loop_field {A} (f : World -> A) (c : M unit) w :
  (forall l w', f (set_loop_exceptions l w') = f w') ->
  f (in_loop c w) = f (exec c w).
Proof.
  intros Hf. unfold in_loop, exec. destruct (c w) as [[e|[]] w']; simpl; auto.
Qed.

(** ** The invariant is kept by every method *)

Lemma Inv_ext w w' :
  tasks w' = tasks w -> devices w' = devices w ->
  loop_tasks w' = loop_tasks w -> evdev w' = evdev w ->
  fd w' = fd w -> inhibitors w' = inhibitors w ->
  Inv w -> Inv w'.
Proof.
  intros Ht Hd Hl He Hf Hi [].
  split; rewrite ?Ht, ?Hd, ?Hl, ?He, ?Hf, ?Hi; done.
Qed.

Lemma Inv_init : Inv init.
Proof.
  split; simpl; try done; try apply NoDup_nil_2.
Qed.

Lemma untracked_cb w t k device :
  Inv w -> untracked device w ->
  loop_tasks w !! t = Some k -> done_callback k = Some device -> False.
Proof.
  intros HI Hu Hk Hcb. unfold untracked in Hu.
  by rewrite (inv_cb w HI t k device Hk Hcb) in Hu.
Qed.

Lemma Inv_set_None device w :
  Inv w -> untracked device w ->
  Inv (set_tasks (Dict.set device None (tasks w)) w).
Proof.
  intros HI Hu. split; simpl.
  - apply DictFacts.NoDup_keys_set, HI.
  - apply HI.
  - intros t k dev Hk Hcb.
    destruct (decide (device = dev)) as [->|Hne].
    + destruct (untracked_cb w t k dev HI Hu Hk Hcb).
    + rewrite DictFacts.get_set_ne by done. by eapply inv_cb.
  - intros dev t.
    destruct (decide (device = dev)) as [->|Hne].
    + by rewrite DictFacts.get_set_eq.
    + rewrite DictFacts.get_set_ne by done. by apply inv_entry.
  - apply HI.
  - apply HI.
  - intros dev t h k.
    destruct (decide (device = dev)) as [->|Hne].
    + by rewrite DictFacts.get_set_eq.
    + rewrite DictFacts.get_set_ne by done. by apply inv_handle.
  - apply HI.
Qed.

Lemma Inv_drop_None device w :
  Inv w -> untracked device w ->
  Inv (set_tasks (Dict.remove device (tasks w)) w).
Proof.
  intros HI Hu. split; simpl.
  - apply DictFacts.NoDup_keys_remove, HI.
  - apply HI.
  - intros t k dev Hk Hcb.
    destruct (decide (device = dev)) as [->|Hne].
    + destruct (untracked_cb w t k dev HI Hu Hk Hcb).
    + rewrite DictFacts.get_remove_ne by done. by eapply inv_cb.
  - intros dev t.
    destruct (decide (device = dev)) as [->|Hne].
    + rewrite DictFacts.get_remove_eq; [done|apply HI].
    + rewrite DictFacts.get_remove_ne by done. by apply inv_entry.
  - apply HI.
  - apply HI.
  - intros dev t h k.
    destruct (decide (device = dev)) as [->|Hne].
    + rewrite DictFacts.get_remove_eq; [done|apply HI].
    + rewrite DictFacts.get_remove_ne by done. by apply inv_handle.
  - apply HI.
Qed.

Lemma Inv_monitored device nm w :
  Inv w -> untracked device w -> Inv (monitored device nm w).
Proof.
  intros HI Hu. split; simpl.
  - apply DictFacts.NoDup_keys_set, HI.
  - apply DictFacts.NoDup_keys_set, HI.
  - intros t k dev [[Hlt Hk]|[-> <-]]%lookup_snoc_Some Hcb.
    + destruct (decide (device = dev)) as [->|Hne].
      * destruct (untracked_cb w t k dev HI Hu Hk Hcb).
      * rewrite DictFacts.get_set_ne by done. by eapply inv_cb.
    + simpl in Hcb. injection Hcb as <-. by rewrite DictFacts.get_set_eq.
  - intros dev t.
    destruct (decide (device = dev)) as [->|Hne].
    + rewrite DictFacts.get_set_eq. intros [= <-].
      eexists. split; [apply list_lookup_middle; done|done].
    + rewrite DictFacts.get_set_ne by done. intros H.
      destruct (inv_entry w HI dev t H) as (k & Hk & Hcb).
      exists k. split; [by apply lookup_app_l_Some|done].
  - intros t k [[Hlt Hk]|[-> <-]]%lookup_snoc_Some Hcb; [|done].
    by eapply inv_reaped.
  - intros t k dev [[Hlt Hk]|[-> <-]]%lookup_snoc_Some Hcb.
    + destruct (inv_dev w HI t k dev Hk Hcb) as (d & Hd & Hp).
      exists d. split; [by apply lookup_app_l_Some|done].
    + simpl in *. injection Hcb as <-.
      eexists. split; [apply list_lookup_middle; done|done].
  - intros dev t h k.
    destruct (decide (device = dev)) as [->|Hne].
    + rewrite !DictFacts.get_set_eq. intros [= <-] [= <-].
      rewrite list_lookup_middle by done. by intros [= <-].
    + rewrite !DictFacts.get_set_ne by done. intros Ht Hh.
      destruct (inv_entry w HI dev t Ht) as (k' & Hk' & _).
      rewrite (lookup_app_l_Some _ _ _ _ Hk'). intros [= <-].
      by eapply inv_handle.
  - apply HI.
Qed.

(** Changing one task without touching its callback or its device. *)
Lemma Inv_alter_task (f : Task -> Task) t w :
  (forall k, done_callback (f k) = done_callback k) ->
  (forall k, coro_device (f k) = coro_device k) ->
  (forall k, loop_tasks w !! t = Some k -> done_callback k = None ->
             exists c, task_phase (f k) = Finished c) ->
  Inv w -> Inv (set_loop_tasks (alter f t (loop_tasks w)) w).
Proof.
  intros Hcb Hco Hfin HI.
  assert (Hlk : forall t' k', alter f t (loop_tasks w) !! t' = Some k' ->
            exists k, loop_tasks w !! t' = Some k /\
                      done_callback k' = done_callback k /\
                      coro_device k' = coro_device k /\
                      (done_callback k = None -> exists c, task_phase k' = Finished c)).
  { intros t' k'. destruct (decide (t = t')) as [->|Hne].
    - rewrite list_lookup_alter_eq. destruct (loop_tasks w !! t') as [k|] eqn:E; [|done].
      simpl. intros [= <-]. exists k. split_and!; auto.
    - rewrite list_lookup_alter_ne by done. intros Hk'. exists k'.
      split_and!; auto. intros. by eapply inv_reaped. }
  split; simpl; try apply HI.
  - intros t' k' dev (k & Hk & E1 & E2 & _)%Hlk. rewrite E1.
    by eapply inv_cb.
  - intros dev t' (k & Hk & Hd)%(inv_entry w HI).
    destruct (decide (t = t')) as [->|Hne].
    + exists (f k). rewrite list_lookup_alter_eq, Hk. split; [done|].
      by rewrite Hcb.
    + exists k. by rewrite list_lookup_alter_ne.
  - intros t' k' (k & Hk & E1 & E2 & Hf)%Hlk. rewrite E1. done.
  - intros t' k' dev (k & Hk & E1 & E2 & _)%Hlk. rewrite E1, E2.
    by eapply inv_dev.
  - intros dev t' h k' Ht Hh (k & Hk & E1 & E2 & _)%Hlk. rewrite E2.
    by eapply inv_handle.
Qed.

Lemma Inv_close h w : Inv w -> Inv (set_evdev (alter closed h (evdev w)) w).
Proof.
  intros HI. split; simpl; try apply HI.
  intros t k dev Hk Hcb. destruct (inv_dev w HI t k dev Hk Hcb) as (d & Hd & Hp).
  destruct (decide (h = coro_device k)) as [->|Hne].
  - exists (closed d). by rewrite list_lookup_alter_eq, Hd.
  - exists d. by rewrite list_lookup_alter_ne.
Qed.

Lemma Inv_devices_remove device w :
  Inv w -> Inv (set_devices (Dict.remove device (devices w)) w).
Proof.
  intros HI. split; simpl; try apply HI.
  - apply DictFacts.NoDup_keys_remove, HI.
  - intros dev t h k Ht.
    destruct (decide (device = dev)) as [->|Hne].
    + rewrite DictFacts.get_remove_eq; [done|apply HI].
    + rewrite DictFacts.get_remove_ne by done. by apply inv_handle.
Qed.

(** The done callback of a finished task: its entry goes, nothing else. *)
Lemma Inv_reap t k device w :
  Inv w -> loop_tasks w !! t = Some k -> done_callback k = Some device ->
  (exists c, task_phase k = Finished c) ->
  Inv (set_tasks (Dict.remove device (tasks w))
         (set_loop_tasks (alter (with_callback None) t (loop_tasks w)) w)).
Proof.
  intros HI Hk Hcb [c Hc].
  pose proof (inv_cb w HI t k device Hk Hcb) as Hent.
  assert (Hother : forall t' k', t ≠ t' -> loop_tasks w !! t' = Some k' ->
            done_callback k' ≠ Some device).
  { intros t' k' Hne Hk' Hcb'. apply Hne.
    pose proof (inv_cb w HI t' k' device Hk' Hcb') as E. congruence. }
  split; simpl; try apply HI.
  - apply DictFacts.NoDup_keys_remove, HI.
  - intros t' k' dev. destruct (decide (t = t')) as [<-|Hne].
    + rewrite list_lookup_alter_eq, Hk. simpl. by intros [= <-].
    + rewrite list_lookup_alter_ne by done. intros Hk' Hcb'.
      rewrite DictFacts.get_remove_ne.
      * by eapply inv_cb.
      * intros ->. by eapply Hother.
  - intros dev t'. destruct (decide (device = dev)) as [->|Hne].
    + rewrite DictFacts.get_remove_eq; [done|apply HI].
    + rewrite DictFacts.get_remove_ne by done.
      intros (k' & Hk' & Hcb')%(inv_entry w HI).
      exists k'. split; [|done]. rewrite list_lookup_alter_ne; [done|].
      intros <-. congruence.
  - intros t' k'. destruct (decide (t = t')) as [<-|Hne].
    + rewrite list_lookup_alter_eq, Hk. simpl. intros [= <-] _. by exists c.
    + rewrite list_lookup_alter_ne by done. by eapply inv_reaped.
  - intros t' k' dev. destruct (decide (t = t')) as [<-|Hne].
    + rewrite list_lookup_alter_eq, Hk. simpl. by intros [= <-].
    + rewrite list_lookup_alter_ne by done. by eapply inv_dev.
  - intros dev t' h k'. destruct (decide (device = dev)) as [->|Hne].
    + rewrite DictFacts.get_remove_eq; [done|apply HI].
    + rewrite DictFacts.get_remove_ne by done. intros Ht Hh.
      destruct (decide (t = t')) as [<-|Hne'].
      * rewrite list_lookup_alter_eq, Hk. simpl. intros [= <-]. simpl.
        by eapply inv_handle.
      * rewrite list_lookup_alter_ne by done. by eapply inv_handle.
Qed.

(** The same steps, with the old field named apart from the world. *)
Lemma Inv_set_None_at device d w :
  d = tasks w -> Inv w -> untracked device w ->
  Inv (set_tasks (Dict.set device None d) w).
Proof. intros ->. apply Inv_set_None. Qed.

Lemma Inv_drop_None_at device d w :
  d = tasks w -> Inv w -> untracked device w ->
  Inv (set_tasks (Dict.remove device d) w).
Proof. intros ->. apply Inv_drop_None. Qed.

Lemma Inv_close_at h l w :
  l = evdev w -> Inv w -> Inv (set_evdev (alter closed h l) w).
Proof. intros ->. apply Inv_close. Qed.

Lemma Inv_devices_remove_at device d w :
  d = devices w -> Inv w -> Inv (set_devices (Dict.remove device d) w).
Proof. intros ->. apply Inv_devices_remove. Qed.

Lemma Inv_logged lg lv m w : Inv w -> Inv (logged lg lv m w).
Proof. by apply Inv_ext. Qed.

Lemma untracked_logged lg lv m device w :
  untracked device (logged lg lv m w) <-> untracked device w.
Proof. done. Qed.

Lemma Inv_create_monitor_task open device w :
  Inv w -> untracked device w -> Inv (exec (create_monitor_task open device) w).
Proof.
  intros HI Hu. unfold exec. rewrite create_monitor_task_eq.
  destruct (open device); simpl; [done|]. by apply Inv_monitored.
Qed.

Lemma Inv_add_device open device w :
  Inv w -> Inv (exec (add_device open device) w).
Proof.
  intros HI. unfold exec. rewrite add_device_eq. simpl.
  pose proof (Inv_logged lg_watcher INFO (AddingDevice device) w HI) as HI0.
  assert (Hcase : untracked device w ->
    Inv (if started w
         then create_monitor_task open device
                (logged lg_watcher INFO (AddingDevice device) w)
         else (inr (), set_tasks (Dict.set device None (tasks w))
                         (logged lg_watcher INFO (AddingDevice device) w))).2).
  { intros Hu. destruct (started w); simpl.
    - by apply Inv_create_monitor_task.
    - by apply Inv_set_None_at. }
  destruct (Dict.get device (tasks w)) as [[t|]|] eqn:E.
  - simpl. by apply Inv_logged.
  - apply Hcase. unfold untracked. by rewrite E.
  - apply Hcase. unfold untracked. by rewrite E.
Qed.

Lemma cancel_requested_callback k : done_callback (cancel_requested k) = done_callback k.
Proof. unfold cancel_requested. by destruct (task_phase k). Qed.

Lemma cancel_requested_device k : coro_device (cancel_requested k) = coro_device k.
Proof. unfold cancel_requested. by destruct (task_phase k). Qed.

Lemma cancel_requested_phase k : task_phase (cancel_requested k) = task_phase k.
Proof. unfold cancel_requested. destruct (task_phase k) eqn:E; simpl; congruence. Qed.

Lemma Inv_Task_cancel t w :
  Inv w -> Inv (set_loop_tasks (alter cancel_requested t (loop_tasks w)) w).
Proof.
  intros HI. apply Inv_alter_task; auto using cancel_requested_callback,
    cancel_requested_device.
  intros k Hk Hcb. rewrite cancel_requested_phase. by eapply inv_reaped.
Qed.

Lemma Inv_remove_device device w :
  Inv w -> Inv (exec (remove_device device) w).
Proof.
  intros HI. unfold exec. rewrite remove_device_eq. simpl.
  pose proof (Inv_logged lg_watcher INFO (RemovingDevice device) w HI) as HI0.
  destruct (Dict.get device (tasks w)) as [[t|]|] eqn:E.
  - pose proof (Inv_Task_cancel t _ HI0) as HI1.
    destruct (Dict.get device (devices w)) as [h|] eqn:D; simpl; [|done].
    apply Inv_devices_remove_at; [done|]. by apply Inv_close_at.
  - simpl. apply Inv_drop_None_at; [done..|].
    unfold untracked. simpl. by rewrite E.
  - done.
Qed.

Lemma Inv_in_phase t p l w :
  l = loop_tasks w -> Inv w ->
  (forall k, l !! t = Some k ->
     (exists c, task_phase k = Finished c) -> exists c, p = Finished c) ->
  Inv (set_loop_tasks (alter (in_phase p) t l) w).
Proof.
  intros -> HI Hp. apply Inv_alter_task; auto.
  intros k Hk Hcb. simpl. apply (Hp k Hk). by eapply inv_reaped.
Qed.

Lemma Inv_monitor_gamepad_events t r w : Inv w -> Inv (exec (monitor_gamepad_events t r) w).
Proof.
  intros HI. unfold exec. rewrite monitor_gamepad_events_eq.
  destruct (loop_tasks w !! t) as [k|] eqn:Hk; [|done]. simpl.
  destruct (task_phase k) eqn:Hp, (must_cancel k); simpl; try done.
  - apply Inv_in_phase; [done..|]. intros k' Hk' _. by eexists.
  - apply Inv_in_phase; [done|by apply Inv_logged|].
    intros k' ? [c Hc]. congruence.
  - apply Inv_in_phase; [done|by apply Inv_logged|]. intros. by eexists.
  - destruct r; simpl.
    + by apply Inv_ext with w.
    + destruct (decide _); simpl;
        (apply Inv_in_phase; [done|by apply Inv_logged|]);
        intros; by eexists.
Qed.

Lemma Inv_Task_run_callback t w : Inv w -> Inv (exec (Task_run_callback t) w).
Proof.
  intros HI. unfold exec. rewrite Task_run_callback_eq.
  destruct (loop_tasks w !! t) as [k|] eqn:Hk; [|done].
  destruct (task_phase k) as [| |c] eqn:Hp; try done.
  destruct (done_callback k) as [device|] eqn:Hcb; [|done]. simpl.
  rewrite (inv_cb w HI t k device Hk Hcb). simpl.
  apply (Inv_reap t k device w); eauto.
Qed.

Lemma remove_first_singleton h : remove_first h [h] = [].
Proof. simpl. by rewrite decide_True. Qed.

Lemma Inv_lock_idle reply w : Inv w -> Inv (exec (lock_idle reply) w).
Proof.
  intros HI. unfold exec. rewrite lock_idle_eq.
  destruct (fd w) eqn:F; [done|]. destruct reply; simpl.
  - destruct HI. split; simpl; try done. by rewrite inv_lock0, F.
  - by apply Inv_logged.
Qed.

Lemma Inv_unlock_idle w : Inv w -> Inv (exec unlock_idle w).
Proof.
  intros HI. unfold exec. rewrite unlock_idle_eq.
  destruct (fd w) eqn:F; [|done]. simpl.
  destruct HI. split; simpl; try done.
  rewrite inv_lock0, F. apply remove_first_singleton.
Qed.

Lemma inhibit_idle_elapsed reply w :
  inhibit_idle_when_gamepads_active (Elapsed reply) w =
    if gamepad_active w
    then lock_idle reply (set_gamepad_active false w)
    else unlock_idle (set_gamepad_active false w).
Proof.
  unfold inhibit_idle_when_gamepads_active, sample, get_and_reset_active, try_except.
  unfold mbind, M_bind, mret, M_ret, gets, modify. simpl.
  destruct (gamepad_active w).
  - rewrite lock_idle_eq. simpl. destruct (fd w); [done|]. by destruct reply.
  - rewrite unlock_idle_eq. simpl. by destruct (fd w).
Qed.

Lemma inhibit_idle_cancelled w :
  inhibit_idle_when_gamepads_active Cancel w =
    (inl CancelledError,
     exec unlock_idle (logged lg_root INFO InhibitTaskExits w)).
Proof.
  unfold inhibit_idle_when_gamepads_active, try_except, exec, raise, logging, modify.
  unfold mbind, M_bind. simpl.
  change (set_log _ w) with (logged lg_root INFO InhibitTaskExits w).
  rewrite unlock_idle_eq. by destruct (fd _).
Qed.

Lemma Inv_inhibit_idle k w : Inv w -> Inv (exec (inhibit_idle_when_gamepads_active k) w).
Proof.
  intros HI. unfold exec. destruct k as [reply|].
  - rewrite inhibit_idle_elapsed.
    assert (Inv (set_gamepad_active false w)) by (by apply Inv_ext with w).
    destruct (gamepad_active w).
    + by apply Inv_lock_idle.
    + by apply Inv_unlock_idle.
  - rewrite inhibit_idle_cancelled. simpl.
    by apply Inv_unlock_idle, Inv_logged.
Qed.

Lemma Inv_in_loop (c : M unit) w : Inv (exec c w) -> Inv (in_loop c w).
Proof.
  unfold in_loop, exec. destruct (c w) as [[e|[]] w']; simpl; [|done].
  by apply Inv_ext.
Qed.

Lemma Inv_step ev w : Inv w -> Inv (step ev w).
Proof.
  intros HI. destruct ev as [open device|device|t r|t|k]; simpl.
  - by apply Inv_in_loop, Inv_add_device.
  - by apply Inv_in_loop, Inv_remove_device.
  - by apply Inv_in_loop, Inv_monitor_gamepad_events.
  - by apply Inv_in_loop, Inv_Task_run_callback.
  - destruct (bridge w); [done|].
    pose proof (Inv_inhibit_idle k w HI) as H. unfold exec in H.
    destruct (inhibit_idle_when_gamepads_active k w) as [[e|[]] w']; simpl in *; [|done].
    by apply Inv_ext with w'.
Qed.

Lemma Inv_run evs w : Inv w -> Inv (run evs w).
Proof.
  revert w. induction evs as [|ev evs IH]; intros w HI; simpl; [done|].
  by apply IH, Inv_step.
Qed.

(** *** [set_init_devices], [start], [stop] *)

Lemma for_cons {A} (x : A) (l : list A) (body : A -> M unit) w :
  for_ (x :: l) body w =
    match body x w with
    | (inr _, w') => for_ l body w'
    | (inl e, w') => (inl e, w')
    end.
Proof. done. Qed.

Lemma set_init_devices_untracked devs w :
  (forall device, untracked device w) ->
  forall device, untracked device (exec (set_init_devices devs) w).
Proof.
  unfold set_init_devices, exec. revert w.
  induction devs as [|d devs IH]; intros w Hu device; [apply Hu|].
  rewrite for_cons. unfold modify at 1. apply IH. clear device.
  intros device. unfold untracked. simpl.
  destruct (decide (d = device)) as [->|Hne].
  - by rewrite DictFacts.get_set_eq.
  - rewrite DictFacts.get_set_ne by done. apply Hu.
Qed.

Lemma Inv_set_init_devices devs w :
  Inv w -> (forall device, untracked device w) ->
  Inv (exec (set_init_devices devs) w).
Proof.
  unfold set_init_devices, exec. revert w.
  induction devs as [|d devs IH]; intros w HI Hu; [done|].
  rewrite for_cons. unfold modify at 1. apply IH.
  - by apply Inv_set_None.
  - apply (set_init_devices_untracked [d] w Hu).
Qed.

Lemma untracked_monitored device nm d w :
  d ≠ device -> untracked d w -> untracked d (monitored device nm w).
Proof.
  intros Hne Hu. unfold untracked. simpl.
  by rewrite DictFacts.get_set_ne.
Qed.

Lemma Inv_start_loop open ds w :
  NoDup ds -> (forall d, d ∈ ds -> untracked d w) -> Inv w ->
  Inv (exec (for_ ds (λ device,
              logging lg_watcher INFO (CreateMonitorFor device);;
              create_monitor_task open device)) w).
Proof.
  unfold exec. revert w.
  induction ds as [|d ds IH]; intros w Hnd Hu HI; [done|].
  apply NoDup_cons in Hnd as [Hd Hnd].
  rewrite for_cons. unfold mbind at 1, M_bind at 1, logging at 1, modify at 1.
  rewrite create_monitor_task_eq.
  change (set_log _ w) with (logged lg_watcher INFO (CreateMonitorFor d) w).
  destruct (open d) as [errno|nm]; simpl.
  - by apply Inv_logged.
  - apply IH; [done| |].
    + intros d' Hd'. apply untracked_monitored.
      * intros ->. done.
      * apply Hu. by apply elem_of_cons; right.
    + apply Inv_monitored; [by apply Inv_logged|].
      apply Hu. by apply elem_of_cons; left.
Qed.

Lemma start_eq open w :
  start open w =
    for_ (Dict.keys (tasks w))
      (λ device,
         logging lg_watcher INFO (CreateMonitorFor device);;
         create_monitor_task open device)
      (set_started true w).
Proof. done. Qed.

Lemma Inv_start open w :
  Inv w -> (forall device, untracked device w) -> Inv (exec (start open) w).
Proof.
  intros HI Hu. unfold start, exec.
  unfold mbind at 1, M_bind at 1, modify at 1.
  unfold mbind at 1, M_bind at 1, gets at 1.
  apply (Inv_start_loop open _ (set_started true w)).
  - apply HI.
  - intros d _. apply Hu.
  - by apply Inv_ext with w.
Qed.

Lemma Inv_cancel_all ts w : Inv w -> Inv (exec (for_ ts cancel) w).
Proof.
  unfold exec. revert w. induction ts as [|[t|] ts IH]; intros w HI; [done|..].
  - rewrite for_cons. simpl. apply IH. by apply Inv_Task_cancel.
  - done.
Qed.

Lemma stop_begin_eq w :
  stop_begin w =
    match for_ (Dict.values (tasks w)) cancel (set_started false w) with
    | (inr _, w') => (inr (Dict.values (tasks w)), w')
    | (inl e, w') => (inl e, w')
    end.
Proof.
  unfold stop_begin. unfold_monad. simpl.
  by destruct (for_ _ _ _) as [[e|[]] w'].
Qed.

Lemma Inv_stop_begin w : Inv w -> Inv (exec stop_begin w).
Proof.
  intros HI. unfold exec. rewrite stop_begin_eq.
  assert (HI0 : Inv (set_started false w)) by (by apply Inv_ext with w).
  pose proof (Inv_cancel_all (Dict.values (tasks w)) _ HI0) as H.
  unfold exec in H. by destruct (for_ _ _ _) as [[e|[]] w'].
Qed.

Lemma reachable_run evs w : reachable w -> reachable (run evs w).
Proof.
  revert w. induction evs as [|ev evs IH]; intros w Hr; simpl; [done|].
  by apply IH, reach_step.
Qed.

Lemma reachable_Inv w : reachable w -> Inv w.
Proof.
  induction 1.
  - apply Inv_set_init_devices; [apply Inv_init|done].
  - by apply Inv_step.
  - by apply Inv_start.
  - by apply Inv_stop_begin.
Qed.

(** ** The idle lock and the sampling loop *)

Lemma lock_state_in_loop (c : M unit) w :
  lock_state (exec c w) = lock_state w -> lock_state (in_loop c w) = lock_state w.
Proof.
  unfold in_loop, exec. by destruct (c w) as [[e|[]] w'].
Qed.

Lemma lock_state_watcher ev w :
  (forall k, ev ≠ WakeInhibit k) -> lock_state (step ev w) = lock_state w.
Proof.
  intros Hev. destruct ev as [open device|device|t r|t|k]; simpl;
    [..|by destruct (Hev k)]; apply lock_state_in_loop; unfold exec.
  - rewrite add_device_eq. simpl.
    destruct (Dict.get device (tasks w)) as [[?|]|]; try done;
      (destruct (started w); [|done]); rewrite create_monitor_task_eq;
      by destruct (open device).
  - rewrite remove_device_eq. simpl.
    destruct (Dict.get device (tasks w)) as [[?|]|]; try done.
    by destruct (Dict.get device (devices w)).
  - rewrite monitor_gamepad_events_eq. destruct (loop_tasks w !! t) as [k|]; [|done].
    simpl. destruct (task_phase k), (must_cancel k); try done.
    destruct r; [done|]. by destruct (decide _).
  - rewrite Task_run_callback_eq. destruct (loop_tasks w !! t) as [k|]; [|done].
    destruct (task_phase k); try done. destruct (done_callback k); [|done].
    simpl. by destruct (Dict.get _ _).
Qed.

(** Once the coroutine has ended nothing drives the lock any more. *)
Lemma lock_state_ended e evs w :
  bridge w = Some e -> lock_state (run evs w) = lock_state w.
Proof.
  revert w. induction evs as [|ev evs IH]; intros w Hb; [done|]. simpl.
  assert (Hs : lock_state (step ev w) = lock_state w).
  { destruct ev as [| | | |k]; try by apply lock_state_watcher.
    simpl. by rewrite Hb. }
  rewrite IH; [done|]. unfold lock_state in Hs. congruence.
Qed.

Lemma call_lock_held calls w :
  inhibitors w = option_list (fd w) ->
  inhibitors (foldl call_lock w calls) = option_list (fd (foldl call_lock w calls)).
Proof.
  revert w. induction calls as [|c calls IH]; intros w Hw; [done|]. simpl.
  apply IH. destruct c as [reply|]; simpl; unfold exec.
  - rewrite lock_idle_eq. rewrite Hw. destruct (fd w) eqn:F; simpl.
    + by rewrite Hw, F.
    + destruct reply; simpl; by rewrite ?Hw, ?F.
  - rewrite unlock_idle_eq. rewrite Hw. destruct (fd w) eqn:F; simpl.
    + by rewrite decide_True.
    + by rewrite Hw, F.
Qed.

(** C4. [lock_idle] with a descriptor held changes nothing and asks logind
    nothing; two [lock_idle] in a row leave the one descriptor of the first;
    [unlock_idle] with no descriptor changes nothing, so a second
    [unlock_idle] succeeds and leaves none; and whatever sequence of the two
    calls is made on a new [IdleLock], with whatever answers from logind,
    the process holds at most one inhibitor, the one in [fd]. *)
Theorem lock_idle_unlock_idle_idempotent :
  forall (w : World) (h : nat) (reply : option nat) (calls : list lock_call),
    lock_idle reply (set_fd (Some h) w) = (inr (), set_fd (Some h) w)
    /\ (let once := exec (lock_idle (Some h)) (fresh_lock w) in
        lock_idle reply once = (inr (), once)
        /\ fd once = Some h /\ inhibitors once = [h])
    /\ unlock_idle (set_fd None w) = (inr (), set_fd None w)
    /\ (let once := exec unlock_idle w in
        outcome unlock_idle w = inr ()
        /\ unlock_idle once = (inr (), once) /\ fd once = None)
    /\ (let w' := foldl call_lock (fresh_lock w) calls in
        inhibitors w' = option_list (fd w') /\ length (inhibitors w') <= 1).
Proof.
  intros w h reply calls. split_and!.
  - by rewrite lock_idle_eq.
  - unfold exec. rewrite !lock_idle_eq. by simpl.
  - by rewrite unlock_idle_eq.
  - unfold exec, outcome. rewrite !unlock_idle_eq.
    destruct (fd w) eqn:F; simpl; rewrite ?unlock_idle_eq; simpl; by rewrite ?F.
  - assert (H : inhibitors (foldl call_lock (fresh_lock w) calls) =
                option_list (fd (foldl call_lock (fresh_lock w) calls)))
      by (by apply call_lock_held).
    split; [done|]. rewrite H. destruct (fd _); simpl; lia.
Qed.

(** C1. A sampling tick leaves the activity flag false and does what
    [lock_idle] does when the flag was true, what [unlock_idle] does when it
    was false.  After a tick that saw the flag true the descriptor is held
    (it was held already, or logind granted it); after a tick that saw it
    false no descriptor is held; in both cases the loop goes on. *)
Theorem tick_samples_flag_and_drives_lock :
  forall (w : World) (reply : option nat),
    bridge w = None ->
    let w' := step (tick reply) w in
    inhibit_idle_when_gamepads_active (Elapsed reply) w =
      (if gamepad_active w then lock_idle reply else unlock_idle)
        (set_gamepad_active false w)
    /\ gamepad_active w' = false
    /\ (gamepad_active w = true -> is_Some (fd w) \/ is_Some reply ->
        is_Some (fd w') /\ bridge w' = None)
    /\ (gamepad_active w = false -> fd w' = None /\ bridge w' = None).
Proof.
  intros w reply Hb. simpl. rewrite Hb, inhibit_idle_elapsed.
  split_and!.
  - by destruct (gamepad_active w).
  - destruct (gamepad_active w).
    + rewrite lock_idle_eq. simpl. destruct (fd w); [done|]. by destruct reply.
    + rewrite unlock_idle_eq. simpl. by destruct (fd w).
  - intros -> Hor. rewrite lock_idle_eq. simpl.
    destruct (fd w) as [h|] eqn:F; simpl; [by rewrite F|].
    destruct reply as [h|]; simpl; [by eauto|].
    destruct Hor as [[? ?]|[? ?]]; done.
  - intros ->. rewrite unlock_idle_eq. simpl. by destruct (fd w) eqn:F.
Qed.

(** Within a window the flag only goes up: an input event read by a
    monitor sets it, and nothing but the sampling itself clears it. *)
Lemma input_event_sets_flag w t k :
  loop_tasks w !! t = Some k -> task_phase k = Reading ->
  must_cancel k = false ->
  gamepad_active (step (StepTask t InputEvent) w) = true.
Proof.
  intros Hk Hp Hc. simpl. unfold in_loop.
  by rewrite monitor_gamepad_events_eq, Hk, Hp, Hc.
Qed.

Lemma flag_kept_until_sampled ev w :
  (forall reply, ev ≠ tick reply) ->
  gamepad_active w = true -> gamepad_active (step ev w) = true.
Proof.
  intros Hev Ha. destruct ev as [open device|device|t r|t|k].
  - simpl. rewrite (in_loop_field gamepad_active) by done. unfold exec.
    rewrite add_device_eq. simpl.
    destruct (Dict.get device (tasks w)) as [[?|]|]; try done;
      (destruct (started w); [|done]); rewrite create_monitor_task_eq;
      by destruct (open device).
  - simpl. rewrite (in_loop_field gamepad_active) by done. unfold exec.
    rewrite remove_device_eq. simpl.
    destruct (Dict.get device (tasks w)) as [[?|]|]; try done.
    by destruct (Dict.get device (devices w)).
  - simpl. rewrite (in_loop_field gamepad_active) by done. unfold exec.
    rewrite monitor_gamepad_events_eq. destruct (loop_tasks w !! t) as [k|]; [|done].
    simpl. destruct (task_phase k), (must_cancel k); try done.
    destruct r; [done|]. by destruct (decide _).
  - simpl. rewrite (in_loop_field gamepad_active) by done. unfold exec.
    rewrite Task_run_callback_eq. destruct (loop_tasks w !! t) as [k|]; [|done].
    destruct (task_phase k); try done. destruct (done_callback k); [|done].
    simpl. by destruct (Dict.get _ _).
  - destruct k as [reply|]; [by destruct (Hev reply)|].
    simpl. destruct (bridge w); [done|].
    rewrite inhibit_idle_cancelled. unfold exec. rewrite unlock_idle_eq.
    simpl. by destruct (fd w).
Qed.

(** C2. Cancelling the loop runs the handler once: it logs, calls
    [unlock_idle] and re-raises.  The coroutine has then ended with
    [CancelledError], no descriptor is held, the log shows one release when
    the lock was held and none otherwise, and nothing that happens afterwards
    takes the lock again. *)
Theorem cancellation_releases_lock :
  forall (w : World) (evs : list event),
    reachable w -> bridge w = None ->
    let w' := step (WakeInhibit Cancel) w in
    inhibit_idle_when_gamepads_active Cancel w =
      (inl CancelledError,
       exec unlock_idle (logged lg_root INFO InhibitTaskExits w))
    /\ bridge w' = Some CancelledError
    /\ fd w' = None /\ inhibitors w' = []
    /\ log w' = log w ++ LogRecord lg_root INFO InhibitTaskExits ::
                  match fd w with
                  | Some _ => [LogRecord lg_lock INFO ReleasingIdleLock]
                  | None => []
                  end
    /\ lock_state (run evs w') = (None, [], Some CancelledError).
Proof.
  intros w evs Hr Hb. simpl. rewrite Hb, inhibit_idle_cancelled. simpl.
  pose proof (inv_lock w (reachable_Inv w Hr)) as Hl.
  assert (Hst : lock_state
            (set_bridge (Some CancelledError)
               (exec unlock_idle (logged lg_root INFO InhibitTaskExits w))) =
          (None, [], Some CancelledError)).
  { unfold exec. rewrite unlock_idle_eq. simpl. unfold lock_state.
    destruct (fd w) eqn:F; simpl; rewrite Hl, ?F; simpl;
      by rewrite ?decide_True. }
  split_and!; try done.
  - by injection Hst.
  - by injection Hst.
  - unfold exec. rewrite unlock_idle_eq. simpl.
    destruct (fd w); simpl; by rewrite <- ?app_assoc.
  - by rewrite (lock_state_ended CancelledError).
Qed.

(** C5, as the code has it.  When the flag is set, no descriptor is held and
    logind refuses the request, [lock_idle] raises out of the loop: the
    coroutine ends with that exception, the only record logged is the
    info-level one written before the request, no descriptor is held, and no
    later event takes the lock. *)
Theorem inhibit_failure_ends_loop :
  forall (w : World) (evs : list event),
    bridge w = None -> gamepad_active w = true -> fd w = None ->
    let w' := step (tick None) w in
    bridge w' = Some DBusException
    /\ fd w' = None /\ inhibitors w' = inhibitors w
    /\ log w' = log w ++ [LogRecord lg_lock INFO InhibitingIdle]
    /\ lock_state (run evs w') = (None, inhibitors w, Some DBusException).
Proof.
  intros w evs Hb Ha Hf. simpl.
  rewrite Hb, inhibit_idle_elapsed, Ha, lock_idle_eq. simpl. rewrite Hf.
  simpl. split_and!; try done.
  rewrite (lock_state_ended DBusException); [|done].
  unfold lock_state. simpl. by rewrite Hf.
Qed.

(** ** One monitor per path *)

Lemma monitors_entry w p t :
  Inv w -> monitors w p t = true -> Dict.get p (tasks w) = Some (Some t).
Proof.
  intros HI. unfold monitors.
  destruct (loop_tasks w !! t) as [k|] eqn:Hk; [|done].
  destruct (done_callback k) as [device|] eqn:Hcb.
  - destruct (inv_dev w HI t k device Hk Hcb) as (d & Hd & Hp).
    rewrite Hd. simpl. intros H.
    assert (device = p) as <-.
    { destruct (task_phase k); try done;
        apply bool_decide_eq_true in H; congruence. }
    by eapply inv_cb.
  - destruct (inv_reaped w HI t k Hk Hcb) as [c ->]. done.
Qed.

Lemma length_le_1 {A} (l : list A) :
  NoDup l -> (forall x y, x ∈ l -> y ∈ l -> x = y) -> length l <= 1.
Proof.
  destruct l as [|x [|y l]]; simpl; [lia..|].
  intros [Hx _]%NoDup_cons Heq. exfalso. apply Hx.
  rewrite (Heq x y); [|apply elem_of_cons; auto|].
  - apply elem_of_cons; auto.
  - apply elem_of_cons; right. apply elem_of_cons; auto.
Qed.

Lemma add_device_tracked open device t w :
  Dict.get device (tasks w) = Some (Some t) ->
  add_device open device w =
    (inr (), logged lg_watcher WARNING (AlreadyPresent device)
               (logged lg_watcher INFO (AddingDevice device) w)).
Proof. intros H. rewrite add_device_eq. simpl. by rewrite H. Qed.

(** C3. In every world the program can reach by hotplug callbacks, task
    steps and done callbacks, a path occurs once among the keys of [tasks],
    at most one monitor that has not ended reads a given path, that monitor
    is the task stored under the path, and [add_device] for a path whose
    entry holds a task creates no task. *)
Theorem one_monitor_per_path :
  forall (w : World) (p : string),
    reachable w ->
    NoDup (Dict.keys (tasks w))
    /\ length (running_monitors w p) <= 1
    /\ (forall t, monitors w p t = true ->
          Dict.get p (tasks w) = Some (Some t))
    /\ (forall open t, Dict.get p (tasks w) = Some (Some t) ->
          loop_tasks (exec (add_device open p) w) = loop_tasks w).
Proof.
  intros w p Hr. pose proof (reachable_Inv w Hr) as HI. split_and!.
  - apply HI.
  - apply length_le_1.
    + apply NoDup_filter, NoDup_seq.
    + intros x y [Hx _]%list_elem_of_filter [Hy _]%list_elem_of_filter.
      apply (monitors_entry w p x HI) in Hx.
      apply (monitors_entry w p y HI) in Hy. congruence.
  - intros t. by apply monitors_entry.
  - intros open t Ht. unfold exec. by rewrite (add_device_tracked open p t).
Qed.

(** ** How a monitor ends, and what its done callback does *)

Lemma step_DoneCallback_finished w t k c device :
  Inv w -> loop_tasks w !! t = Some k -> task_phase k = Finished c ->
  done_callback k = Some device ->
  step (DoneCallback t) w =
    set_tasks (Dict.remove device (tasks w))
      (set_loop_tasks (alter (with_callback None) t (loop_tasks w)) w).
Proof.
  intros HI Hk Hp Hcb. simpl. unfold in_loop.
  rewrite Task_run_callback_eq, Hk, Hp, Hcb. simpl.
  by rewrite (inv_cb w HI t k device Hk Hcb).
Qed.

Lemma done_callback_removes_entry w t k c device :
  Inv w -> loop_tasks w !! t = Some k -> task_phase k = Finished c ->
  done_callback k = Some device ->
  let w' := step (DoneCallback t) w in
  Dict.get device (tasks w') = None
  /\ loop_exceptions w' = loop_exceptions w
  /\ done_callback <$> loop_tasks w' !! t = Some None.
Proof.
  intros HI Hk Hp Hcb. cbv zeta.
  rewrite (step_DoneCallback_finished w t k c device) by done. simpl.
  split_and!; [|done|].
  - apply DictFacts.get_remove_eq, HI.
  - by rewrite list_lookup_alter_eq, Hk.
Qed.

Lemma reading_has_callback w t k :
  Inv w -> loop_tasks w !! t = Some k -> task_phase k = Reading ->
  exists d, evdev w !! coro_device k = Some d
            /\ done_callback k = Some (path d)
            /\ Dict.get (path d) (tasks w) = Some (Some t).
Proof.
  intros HI Hk Hp. destruct (done_callback k) as [device|] eqn:Hcb.
  - destruct (inv_dev w HI t k device Hk Hcb) as (d & Hd & <-).
    exists d. split_and!; [done..|]. by eapply inv_cb.
  - destruct (inv_reaped w HI t k Hk Hcb) as [c Hc]. congruence.
Qed.

Lemma step_Reading_ends w t k r d :
  loop_tasks w !! t = Some k -> task_phase k = Reading ->
  evdev w !! coro_device k = Some d ->
  (must_cancel k = true \/ exists errno, r = ReadError errno) ->
  step (StepTask t r) w =
    set_loop_tasks (alter (in_phase (Finished false)) t (loop_tasks w))
      (set_log (log w ++
         [ending_record d (must_cancel k)
            match r with ReadError errno => errno | InputEvent => 0%Z end]) w).
Proof.
  intros Hk Hp Hd Hend. simpl. unfold in_loop, ending_record.
  rewrite monitor_gamepad_events_eq, Hk, Hp, Hd. simpl.
  destruct (must_cancel k); [done|].
  destruct Hend as [?|[errno ->]]; [done|]. by destruct (decide _).
Qed.

(** C6. A monitor suspended in its read ends when the read raises or when
    its cancellation is delivered: with an info record for [errno] 19 and
    for cancellation, with an error record for any other [errno], and never
    with an exception.  Its done callback then deletes the entry of its
    path from [tasks] without raising; and so does the done callback of any
    finished task, whenever it runs. *)
Theorem monitor_ends_and_entry_is_removed :
  forall (w : World) (t : nat) (k : Task) (r : read_result),
    reachable w ->
    loop_tasks w !! t = Some k -> task_phase k = Reading ->
    (must_cancel k = true \/ exists errno, r = ReadError errno) ->
    (exists d, evdev w !! coro_device k = Some d
       /\ let w1 := step (StepTask t r) w in
          let w2 := step (DoneCallback t) w1 in
          phase_of w1 t = Some (Finished false)
          /\ loop_exceptions w1 = loop_exceptions w
          /\ log w1 = log w ++
               [ending_record d (must_cancel k)
                  match r with ReadError errno => errno | InputEvent => 0%Z end]
          /\ Dict.get (path d) (tasks w1) = Some (Some t)
          /\ Dict.get (path d) (tasks w2) = None
          /\ loop_exceptions w2 = loop_exceptions w)
    /\ (forall w' t' k' c device,
          reachable w' -> loop_tasks w' !! t' = Some k' ->
          task_phase k' = Finished c -> done_callback k' = Some device ->
          Dict.get device (tasks (step (DoneCallback t') w')) = None
          /\ loop_exceptions (step (DoneCallback t') w') = loop_exceptions w').
Proof.
  intros w t k r Hr Hk Hp Hend. split.
  - pose proof (reachable_Inv w Hr) as HI.
    destruct (reading_has_callback w t k HI Hk Hp) as (d & Hd & Hcb & Hent).
    exists d. split; [done|]. cbv zeta.
    pose proof (reachable_Inv _ (reach_step (StepTask t r) w Hr)) as HI1.
    rewrite (step_Reading_ends w t k r d) in * by done.
    set (w1 := set_loop_tasks _ _) in *.
    assert (Hk1 : loop_tasks w1 !! t = Some (in_phase (Finished false) k)).
    { subst w1. simpl. by rewrite list_lookup_alter_eq, Hk. }
    destruct (done_callback_removes_entry w1 t _ false (path d) HI1 Hk1)
      as (Hg & He & _); [done..|].
    split_and!; try done.
    unfold phase_of. by rewrite Hk1.
  - intros w' t' k' c device Hr' Hk' Hp' Hcb'.
    destruct (done_callback_removes_entry w' t' k' c device) as (? & ? & _);
      auto using reachable_Inv.
Qed.

(** ** [remove_device] and [add_device] by state of the path *)

Lemma remove_device_absent device w :
  Dict.get device (tasks w) = None ->
  remove_device device w =
    (inr (), logged lg_watcher INFO (RemovingDevice device) w).
Proof. intros H. rewrite remove_device_eq. simpl. by rewrite H. Qed.

(** A task with a cancellation requested is finished by its next step,
    whatever the read produced. *)
Lemma step_cancel_requested_finishes w l t k r :
  loop_tasks w = alter cancel_requested t l -> l !! t = Some k ->
  task_finished (step (StepTask t r) w) t = true.
Proof.
  intros Hl Hk.
  assert (Hk1 : loop_tasks w !! t = Some (cancel_requested k))
    by (by rewrite Hl, list_lookup_alter_eq, Hk).
  simpl. unfold in_loop. rewrite monitor_gamepad_events_eq, Hk1. simpl.
  rewrite cancel_requested_phase. unfold task_finished.
  destruct (task_phase k) eqn:Hp.
  - replace (must_cancel (cancel_requested k)) with true
      by (unfold cancel_requested; by rewrite Hp).
    simpl. by rewrite list_lookup_alter_eq, Hk1.
  - replace (must_cancel (cancel_requested k)) with true
      by (unfold cancel_requested; by rewrite Hp).
    simpl. by rewrite list_lookup_alter_eq, Hk1.
  - simpl. rewrite Hk1. simpl. by rewrite cancel_requested_phase, Hp.
Qed.

(** The fourth state, between [remove_device] and the done callback: the
    entry of [tasks] still holds the task, the entry of [devices] is gone.
    A [remove_device] arriving then raises on [self.devices[device]]. *)
Lemma remove_device_while_stopping device t w :
  Dict.get device (tasks w) = Some (Some t) ->
  Dict.get device (devices w) = None ->
  outcome (remove_device device) w = inl (KeyError device).
Proof.
  intros Ht Hd. unfold outcome. rewrite remove_device_eq. simpl.
  by rewrite Ht, Hd.
Qed.

(** C7. [remove_device] by state of the path.  Registered and not started:
    the entry is dropped and nothing else changes.  Running (a task in
    [tasks], its handle in [devices]): the task gets its cancellation, the
    handle it reads is closed and leaves [devices], the entry stays in
    [tasks] until the task has taken its next step and its done callback
    has run, and it is gone afterwards.  Absent: only the info record is
    written and nothing is raised; that is the case of a second
    [remove_device] after the first one's entry is gone. *)
Theorem remove_device_by_state :
  forall (w : World) (device : string) (r : read_result),
    reachable w ->
    let w1 := exec (remove_device device) w in
    let removing := logged lg_watcher INFO (RemovingDevice device) in
    (Dict.get device (tasks w) = Some None ->
       remove_device device w =
         (inr (), set_tasks (Dict.remove device (tasks w)) (removing w))
       /\ Dict.get device (tasks w1) = None
       /\ remove_device device w1 = (inr (), removing w1))
    /\ (forall t h,
          Dict.get device (tasks w) = Some (Some t) ->
          Dict.get device (devices w) = Some h ->
          let w2 := step (StepTask t r) w1 in
          let w3 := step (DoneCallback t) w2 in
          outcome (remove_device device) w = inr ()
          /\ loop_tasks w1 = alter cancel_requested t (loop_tasks w)
          /\ coro_device <$> loop_tasks w !! t = Some h
          /\ evdev w1 = alter closed h (evdev w)
          /\ is_open <$> evdev w1 !! h = Some false
          /\ Dict.get device (devices w1) = None
          /\ Dict.get device (tasks w1) = Some (Some t)
          /\ task_finished w2 t = true
          /\ Dict.get device (tasks w3) = None
          /\ remove_device device w3 = (inr (), removing w3))
    /\ (Dict.get device (tasks w) = None ->
          remove_device device w = (inr (), removing w)).
Proof.
  intros w device r Hr. cbv zeta.
  pose proof (reachable_Inv w Hr) as HI. split_and!.
  - intros Ht. unfold exec. rewrite remove_device_eq. simpl. rewrite Ht.
    simpl. split_and!; [done| |].
    + apply DictFacts.get_remove_eq, HI.
    + apply remove_device_absent. simpl.
      apply DictFacts.get_remove_eq, HI.
  - intros t h Ht Hh.
    destruct (inv_entry w HI device t Ht) as (k & Hk & Hcb).
    pose proof (inv_handle w HI device t h k Ht Hh Hk) as Hco.
    destruct (inv_dev w HI t k device Hk Hcb) as (d & Hd & Hp).
    assert (Hw1 : exec (remove_device device) w =
              set_devices (Dict.remove device (devices w))
                (set_evdev (alter closed h (evdev w))
                   (set_loop_tasks (alter cancel_requested t (loop_tasks w))
                      (logged lg_watcher INFO (RemovingDevice device) w)))).
    { unfold exec. rewrite remove_device_eq. simpl. by rewrite Ht, Hh. }
    pose proof (reach_step (CbRemove device) w Hr) as Hr1.
    assert (Hs1 : step (CbRemove device) w = exec (remove_device device) w).
    { simpl. unfold in_loop, exec. rewrite remove_device_eq. simpl.
      by rewrite Ht, Hh. }
    rewrite Hs1 in Hr1.
    set (w1 := exec (remove_device device) w) in *.
    pose proof (reach_step (StepTask t r) w1 Hr1) as Hr2.
    set (w2 := step (StepTask t r) w1) in *.
    assert (Hfin : task_finished w2 t = true).
    { subst w2. apply (step_cancel_requested_finishes w1 (loop_tasks w) t k r);
        [by rewrite Hw1|done]. }
    assert (Hk2 : exists k2 c, loop_tasks w2 !! t = Some k2
                    /\ task_phase k2 = Finished c).
    { unfold task_finished in Hfin.
      destruct (loop_tasks w2 !! t) as [k2|]; [|done]. simpl in Hfin.
      destruct (task_phase k2) as [| |c] eqn:Hp2; try done.
      by eexists k2, c. }
    destruct Hk2 as (k2 & c & Hk2 & Hp2).
    assert (Hent2 : Dict.get device (tasks w2) = Some (Some t)).
    { subst w2. simpl. unfold in_loop. rewrite monitor_gamepad_events_eq.
      assert (Ht1 : Dict.get device (tasks w1) = Some (Some t))
        by (by rewrite Hw1).
      destruct (loop_tasks w1 !! t) as [k1|]; [|done]. simpl.
      destruct (task_phase k1), (must_cancel k1); try done.
      destruct r; [done|]. by destruct (decide _). }
    destruct (inv_entry w2 (reachable_Inv w2 Hr2) device t Hent2)
      as (k2' & Hk2' & Hcb2).
    assert (k2' = k2) as -> by congruence.
    destruct (done_callback_removes_entry w2 t k2 c device
                (reachable_Inv w2 Hr2) Hk2 Hp2 Hcb2) as (Hg3 & _ & _).
    split_and!; try done.
    + unfold outcome. rewrite remove_device_eq. simpl. by rewrite Ht, Hh.
    + by rewrite Hw1.
    + by rewrite Hk, <- Hco.
    + by rewrite Hw1.
    + rewrite Hw1. simpl. rewrite list_lookup_alter_eq, <- Hco, Hd. done.
    + rewrite Hw1. simpl. apply DictFacts.get_remove_eq, HI.
    + by rewrite Hw1.
    + by apply remove_device_absent.
  - apply remove_device_absent.
Qed.

(** C8, as the code has it.  For a path that has an entry: if the entry
    holds a task, [add_device] writes its info record and a warning and
    changes nothing else; if the entry is [None] no warning is written:
    before the global start the world is unchanged apart from the info
    record, after it the monitor task is created. *)
Theorem add_device_on_tracked_path :
  forall (w : World) (open : opener) (device : string) (x : option nat),
    Dict.get device (tasks w) = Some x ->
    let adding := logged lg_watcher INFO (AddingDevice device) w in
    add_device open device w =
      match x with
      | Some _ =>
          (inr (), logged lg_watcher WARNING (AlreadyPresent device) adding)
      | None =>
          if started w then create_monitor_task open device adding
          else (inr (), adding)
      end.
Proof.
  intros w open device x Hx. rewrite add_device_eq. simpl. rewrite Hx.
  destruct x as [t|]; [done|]. destruct (started w); [done|].
  rewrite DictFacts.set_id by done. by destruct w.
Qed.

(** ** The global [stop] *)

Lemma set_loop_tasks_id w : set_loop_tasks (loop_tasks w) w = w.
Proof. by destruct w. Qed.

Lemma for_cancel_ok ts w :
  None ∉ ts ->
  for_ ts cancel w = (inr (), set_loop_tasks (cancel_each ts (loop_tasks w)) w).
Proof.
  revert w. induction ts as [|[t|] ts IH]; intros w Hn.
  - simpl. by rewrite set_loop_tasks_id.
  - rewrite for_cons. simpl. rewrite IH; [done|].
    intros H. apply Hn. by apply elem_of_cons; right.
  - destruct Hn. by apply elem_of_cons; left.
Qed.

Lemma for_cancel_None pre post w :
  None ∉ pre ->
  for_ (pre ++ None :: post) cancel w =
    (inl AttributeError, set_loop_tasks (cancel_each pre (loop_tasks w)) w).
Proof.
  revert w. induction pre as [|[t|] pre IH]; intros w Hn.
  - simpl. by rewrite set_loop_tasks_id.
  - simpl app. rewrite for_cons. simpl. rewrite IH; [done|].
    intros H. apply Hn. by apply elem_of_cons; right.
  - destruct Hn. by apply elem_of_cons; left.
Qed.

(** C10. When some path is registered and not started, [stop] raises
    [AttributeError] at the first [None] of the snapshot: the flag is
    already false, the tasks stored before that entry have their
    cancellation requested, those stored after it have not, and [stop]
    never reaches its [await].  When no entry is [None] the synchronous
    part of [stop] completes. *)
Theorem stop_fails_on_unstarted_entry :
  forall (w : World) (device : string) (evs : list event),
    Dict.get device (tasks w) = Some None ->
    (outcome stop_begin w = inl AttributeError
     /\ stop evs w = Some (inl AttributeError, exec stop_begin w)
     /\ started (exec stop_begin w) = false
     /\ exists pre post,
          Dict.values (tasks w) = pre ++ None :: post /\ (None ∉ pre)
          /\ loop_tasks (exec stop_begin w) = cancel_each pre (loop_tasks w))
    /\ (forall w', None ∉ Dict.values (tasks w') ->
          outcome stop_begin w' = inr (Dict.values (tasks w'))).
Proof.
  intros w device evs Hd. split.
  - apply DictFacts.get_Some_values in Hd.
    destruct (list_elem_of_split_l _ _ Hd) as (pre & post & Hv & Hpre).
    assert (Hs : stop_begin w =
              (inl AttributeError,
               set_loop_tasks (cancel_each pre (loop_tasks w))
                 (set_started false w))).
    { rewrite stop_begin_eq, Hv. by rewrite for_cancel_None. }
    unfold stop, outcome, exec. rewrite Hs. simpl.
    split_and!; try done. by exists pre, post.
  - intros w' Hn. unfold outcome. rewrite stop_begin_eq.
    by rewrite for_cancel_ok.
Qed.

(** *** Tasks only move forward *)

Lemma advances_refl l : advances l l.
Proof. intros t k Hk. by exists k. Qed.

Lemma advances_trans l1 l2 l3 : advances l1 l2 -> advances l2 l3 -> advances l1 l3.
Proof.
  intros H12 H23 t k Hk. destruct (H12 t k Hk) as (k2 & Hk2 & Hp2).
  destruct (H23 t k2 Hk2) as (k3 & Hk3 & Hp3). exists k3. split; [done|].
  intros c Hc. by apply Hp3, Hp2.
Qed.

Lemma advances_app l x : advances l (l ++ [x]).
Proof. intros t k Hk. exists k. split; [by apply lookup_app_l_Some|done]. Qed.

Lemma advances_alter (f : Task -> Task) t0 l :
  (forall k c, l !! t0 = Some k -> task_phase k = Finished c ->
               task_phase (f k) = Finished c) ->
  advances l (alter f t0 l).
Proof.
  intros Hf t k Hk. destruct (decide (t0 = t)) as [->|Hne].
  - exists (f k). rewrite list_lookup_alter_eq, Hk. split; [done|].
    intros c. by apply Hf.
  - exists k. by rewrite list_lookup_alter_ne.
Qed.

Lemma advances_cancel t l : advances l (alter cancel_requested t l).
Proof.
  apply advances_alter. intros k c _ Hc. by rewrite cancel_requested_phase.
Qed.

Lemma loop_tasks_inhibit_idle k w :
  loop_tasks (exec (inhibit_idle_when_gamepads_active k) w) = loop_tasks w
  /\ started (exec (inhibit_idle_when_gamepads_active k) w) = started w.
Proof.
  unfold exec. destruct k as [reply|].
  - rewrite inhibit_idle_elapsed. destruct (gamepad_active w).
    + rewrite lock_idle_eq. simpl. destruct (fd w); [done|]. by destruct reply.
    + rewrite unlock_idle_eq. simpl. by destruct (fd w).
  - rewrite inhibit_idle_cancelled. unfold exec. rewrite unlock_idle_eq. simpl.
    by destruct (fd w).
Qed.

Lemma step_WakeInhibit_fields k w :
  loop_tasks (step (WakeInhibit k) w) = loop_tasks w
  /\ started (step (WakeInhibit k) w) = started w.
Proof.
  simpl. destruct (bridge w); [done|].
  pose proof (loop_tasks_inhibit_idle k w) as H. unfold exec in H.
  by destruct (inhibit_idle_when_gamepads_active k w) as [[e|[]] w'].
Qed.

Lemma step_advances ev w : advances (loop_tasks w) (loop_tasks (step ev w)).
Proof.
  destruct ev as [open device|device|t r|t|k].
  - simpl. rewrite (in_loop_field loop_tasks) by done. unfold exec.
    rewrite add_device_eq. simpl.
    assert (Hc : advances (loop_tasks w)
              (loop_tasks (create_monitor_task open device
                 (logged lg_watcher INFO (AddingDevice device) w)).2)).
    { rewrite create_monitor_task_eq. destruct (open device); simpl.
      - apply advances_refl.
      - apply advances_app. }
    destruct (Dict.get device (tasks w)) as [[?|]|];
      try apply advances_refl; destruct (started w);
      done || apply advances_refl.
  - simpl. rewrite (in_loop_field loop_tasks) by done. unfold exec.
    rewrite remove_device_eq. simpl.
    destruct (Dict.get device (tasks w)) as [[?|]|];
      try apply advances_refl.
    destruct (Dict.get device (devices w)); apply advances_cancel.
  - simpl. rewrite (in_loop_field loop_tasks) by done. unfold exec.
    rewrite monitor_gamepad_events_eq.
    destruct (loop_tasks w !! t) as [k|] eqn:Hk; [|apply advances_refl].
    assert (Hnf : forall p, (forall c, task_phase k ≠ Finished c) ->
              advances (loop_tasks w) (alter (in_phase p) t (loop_tasks w))).
    { intros p Hp. apply advances_alter. intros k' c Hk' Hc.
      destruct (Hp c). congruence. }
    simpl. destruct (task_phase k) eqn:Hp, (must_cancel k); simpl;
      try apply advances_refl; try (by apply Hnf).
    destruct r; simpl; [apply advances_refl|].
    destruct (decide _); simpl; by apply Hnf.
  - simpl. rewrite (in_loop_field loop_tasks) by done. unfold exec.
    rewrite Task_run_callback_eq.
    destruct (loop_tasks w !! t) as [k|]; [|apply advances_refl].
    destruct (task_phase k); try apply advances_refl.
    destruct (done_callback k); [|apply advances_refl]. simpl.
    destruct (Dict.get _ _); simpl; by apply advances_alter.
  - destruct (step_WakeInhibit_fields k w) as [-> _]. apply advances_refl.
Qed.

Lemma run_advances evs w : advances (loop_tasks w) (loop_tasks (run evs w)).
Proof.
  revert w. induction evs as [|ev evs IH]; intros w; [apply advances_refl|].
  simpl. eapply advances_trans; [apply step_advances|apply IH].
Qed.

(** While the watcher is not started no task is created. *)
Lemma step_unstarted ev w :
  started w = false ->
  started (step ev w) = false
  /\ length (loop_tasks (step ev w)) = length (loop_tasks w).
Proof.
  intros Hs. destruct ev as [open device|device|t r|t|k].
  - simpl. rewrite (in_loop_field started), (in_loop_field loop_tasks) by done.
    unfold exec. rewrite add_device_eq. simpl. rewrite Hs.
    by destruct (Dict.get device (tasks w)) as [[?|]|].
  - simpl. rewrite (in_loop_field started), (in_loop_field loop_tasks) by done.
    unfold exec. rewrite remove_device_eq. simpl.
    destruct (Dict.get device (tasks w)) as [[?|]|]; try done.
    destruct (Dict.get device (devices w)); simpl; by rewrite length_alter.
  - simpl. rewrite (in_loop_field started), (in_loop_field loop_tasks) by done.
    unfold exec. rewrite monitor_gamepad_events_eq.
    destruct (loop_tasks w !! t) as [k|]; [|done]. simpl.
    destruct (task_phase k), (must_cancel k); simpl;
      rewrite ?length_alter; try done.
    destruct r; simpl; [done|]. destruct (decide _); simpl;
      by rewrite length_alter.
  - simpl. rewrite (in_loop_field started), (in_loop_field loop_tasks) by done.
    unfold exec. rewrite Task_run_callback_eq.
    destruct (loop_tasks w !! t) as [k|]; [|done].
    destruct (task_phase k); try done. destruct (done_callback k); [|done].
    simpl. destruct (Dict.get _ _); simpl; by rewrite length_alter.
  - destruct (step_WakeInhibit_fields k w) as [-> ->]. done.
Qed.

Lemma run_unstarted evs w :
  started w = false ->
  started (run evs w) = false
  /\ length (loop_tasks (run evs w)) = length (loop_tasks w).
Proof.
  revert w. induction evs as [|ev evs IH]; intros w Hs; [done|]. simpl.
  destruct (step_unstarted ev w Hs) as [Hs1 Hl1].
  destruct (IH _ Hs1) as [Hs2 Hl2]. split; [done|]. by rewrite Hl2.
Qed.

Lemma cancel_requested_idemp k :
  cancel_requested (cancel_requested k) = cancel_requested k.
Proof. unfold cancel_requested. by destruct (task_phase k) eqn:E; simpl; rewrite ?E. Qed.

Lemma cancel_each_Some t ts l :
  cancel_each (Some t :: ts) l = cancel_each ts (alter cancel_requested t l).
Proof. done. Qed.

Lemma cancel_each_None ts l : cancel_each (None :: ts) l = cancel_each ts l.
Proof. done. Qed.

Lemma length_cancel_each ts l : length (cancel_each ts l) = length l.
Proof.
  revert l. induction ts as [|[t|] ts IH]; intros l; [done|..].
  - by rewrite cancel_each_Some, IH, length_alter.
  - by rewrite cancel_each_None.
Qed.

Lemma advances_cancel_each ts l : advances l (cancel_each ts l).
Proof.
  revert l. induction ts as [|[t|] ts IH]; intros l.
  - apply advances_refl.
  - rewrite cancel_each_Some.
    eapply advances_trans; [apply advances_cancel|apply IH].
  - rewrite cancel_each_None. apply IH.
Qed.

Lemma cancel_each_lookup ts l t k :
  l !! t = Some k ->
  cancel_each ts l !! t =
    Some (if bool_decide (Some t ∈ ts) then cancel_requested k else k).
Proof.
  revert l k. induction ts as [|x ts IH]; intros l k Hk.
  - by rewrite bool_decide_false by apply not_elem_of_nil.
  - destruct x as [t0|].
    + rewrite cancel_each_Some. destruct (decide (t0 = t)) as [->|Hne].
      * erewrite IH by (by rewrite list_lookup_alter_eq, Hk).
        rewrite (bool_decide_true (Some t ∈ Some t :: ts))
          by (apply elem_of_cons; auto).
        by destruct (bool_decide _); rewrite ?cancel_requested_idemp.
      * erewrite IH by (by rewrite list_lookup_alter_ne).
        apply f_equal. apply (f_equal (λ b : bool, if b then _ else _)).
        apply bool_decide_ext. rewrite elem_of_cons. split; [auto|].
        intros [[=]|?]; done.
    + rewrite cancel_each_None. erewrite IH by done.
      apply f_equal. apply (f_equal (λ b : bool, if b then _ else _)).
      apply bool_decide_ext. rewrite elem_of_cons. split; [auto|].
      intros [[=]|?]; done.
Qed.

Lemma stop_begin_ok w :
  None ∉ Dict.values (tasks w) ->
  stop_begin w =
    (inr (Dict.values (tasks w)),
     set_loop_tasks (cancel_each (Dict.values (tasks w)) (loop_tasks w))
       (set_started false w)).
Proof. intros Hn. rewrite stop_begin_eq. by rewrite for_cancel_ok. Qed.

Lemma await_gather_Some ts evs w r w' :
  await_gather ts evs w = Some (r, w') ->
  exists evs', w' = run evs' w /\ gather ts w' = Some r.
Proof.
  revert w. induction evs as [|ev evs IH]; intros w; simpl.
  - destruct (gather ts w) eqn:G; [|done]. intros [= <- <-]. by exists [].
  - destruct (gather ts w) eqn:G.
    + intros [= <- <-]. by exists [].
    + intros (evs' & -> & G')%IH. by exists (ev :: evs').
Qed.

Lemma gather_returns ts w :
  gather ts w = Some (inr ()) -> forall t, t ∈ ts -> task_finished w t = true.
Proof.
  unfold gather. destruct (existsb _ _); [done|].
  destruct (forallb (task_finished w) ts) eqn:F; [|done]. intros _ t Ht.
  rewrite forallb_forall in F. apply F. by apply list_elem_of_In.
Qed.

Lemma task_finished_advances w w' t :
  advances (loop_tasks w) (loop_tasks w') ->
  task_finished w t = true -> task_finished w' t = true.
Proof.
  intros Ha. unfold task_finished.
  destruct (loop_tasks w !! t) as [k|] eqn:Hk; [|done]. simpl.
  destruct (task_phase k) as [| |c] eqn:Hp; try done. intros _.
  destruct (Ha t k Hk) as (k' & -> & Hp'). simpl. by rewrite (Hp' c).
Qed.

(** A task that has not finished is in the snapshot [stop] takes. *)
Lemma unfinished_in_values w t k :
  Inv w -> loop_tasks w !! t = Some k ->
  (forall c, task_phase k ≠ Finished c) -> Some t ∈ Dict.values (tasks w).
Proof.
  intros HI Hk Hp. destruct (done_callback k) as [device|] eqn:Hcb.
  - eapply DictFacts.get_Some_values. by eapply inv_cb.
  - destruct (inv_reaped w HI t k Hk Hcb) as [c Hc]. by destruct (Hp c).
Qed.

Lemma stop_returns_after_all_finished w evs w' :
  Inv w -> None ∉ Dict.values (tasks w) ->
  stop evs w = Some (inr (), w') ->
  started w' = false
  /\ forall t, t < length (loop_tasks w') -> task_finished w' t = true.
Proof.
  intros HI Hn. unfold stop. rewrite stop_begin_ok by done.
  set (ts := Dict.values (tasks w)).
  set (w0 := set_loop_tasks _ _).
  intros (evs' & -> & G)%await_gather_Some.
  destruct (run_unstarted evs' w0 eq_refl) as [Hs Hl]. split; [done|].
  intros t Ht. rewrite Hl in Ht. subst w0. simpl in Ht.
  rewrite length_cancel_each in Ht.
  destruct (lookup_lt_is_Some_2 _ _ Ht) as [k Hk].
  destruct (task_phase k) as [| |c] eqn:Hp.
  - apply (gather_returns _ _ G). apply list_elem_of_omap.
    exists (Some t). split; [|done].
    apply (unfinished_in_values w t k); [done..|]. congruence.
  - apply (gather_returns _ _ G). apply list_elem_of_omap.
    exists (Some t). split; [|done].
    apply (unfinished_in_values w t k); [done..|]. congruence.
  - apply (task_finished_advances w).
    + eapply advances_trans; [|apply run_advances]. simpl.
      apply advances_cancel_each.
    + unfold task_finished. by rewrite Hk; simpl; rewrite Hp.
Qed.

(** *** The precondition of [stop] in the run of [main]

    Once [start] has returned, no entry of [tasks] is [None], whatever the
    loop does afterwards. *)

Lemma tasks_inhibit_idle k w : tasks (exec (inhibit_idle_when_gamepads_active k) w) = tasks w.
Proof.
  unfold exec. destruct k as [reply|].
  - rewrite inhibit_idle_elapsed. destruct (gamepad_active w).
    + rewrite lock_idle_eq. simpl. destruct (fd w); [done|]. by destruct reply.
    + rewrite unlock_idle_eq. simpl. by destruct (fd w).
  - rewrite inhibit_idle_cancelled. unfold exec. rewrite unlock_idle_eq. simpl.
    by destruct (fd w).
Qed.

Lemma step_keeps_entries_started ev w :
  Inv w -> started w = true ->
  (forall device, Dict.get device (tasks w) ≠ Some None) ->
  started (step ev w) = true
  /\ forall device, Dict.get device (tasks (step ev w)) ≠ Some None.
Proof.
  intros HI Hs Hn. destruct ev as [open device|device|t r|t|k].
  - simpl. rewrite (in_loop_field started), (in_loop_field tasks) by done.
    unfold exec. rewrite add_device_eq. simpl. rewrite Hs.
    destruct (Dict.get device (tasks w)) as [[?|]|] eqn:E; try done;
      rewrite create_monitor_task_eq; destruct (open device); simpl;
      (split; [done|]); try done; intros d;
      (destruct (decide (device = d)) as [->|Hne];
         [by rewrite DictFacts.get_set_eq
         |rewrite DictFacts.get_set_ne by done; apply Hn]).
  - simpl. rewrite (in_loop_field started), (in_loop_field tasks) by done.
    unfold exec. rewrite remove_device_eq. simpl.
    destruct (Dict.get device (tasks w)) as [[?|]|] eqn:E; try done.
    + by destruct (Dict.get device (devices w)).
    + by destruct (Hn device).
  - simpl. rewrite (in_loop_field started), (in_loop_field tasks) by done.
    unfold exec. rewrite monitor_gamepad_events_eq.
    destruct (loop_tasks w !! t) as [k|]; [|done]. simpl.
    destruct (task_phase k), (must_cancel k); try done.
    destruct r; [done|]. by destruct (decide _).
  - simpl. rewrite (in_loop_field started), (in_loop_field tasks) by done.
    unfold exec. rewrite Task_run_callback_eq.
    destruct (loop_tasks w !! t) as [k|]; [|done].
    destruct (task_phase k); try done.
    destruct (done_callback k) as [device|]; [|done]. simpl.
    destruct (Dict.get device (tasks w)); simpl; [|done].
    split; [done|]. intros d. destruct (decide (device = d)) as [->|Hne].
    + rewrite DictFacts.get_remove_eq; [done|apply HI].
    + rewrite DictFacts.get_remove_ne by done. apply Hn.
  - destruct (step_WakeInhibit_fields k w) as [_ ->]. split; [done|].
    simpl. destruct (bridge w); [done|].
    pose proof (tasks_inhibit_idle k w) as H. unfold exec in H.
    destruct (inhibit_idle_when_gamepads_active k w) as [[e|[]] w']; simpl in *;
      by rewrite H.
Qed.

Lemma start_loop_entries open ds w w' :
  for_ ds (λ device,
    logging lg_watcher INFO (CreateMonitorFor device);;
    create_monitor_task open device) w = (inr (), w') ->
  started w' = started w
  /\ forall device, Dict.get device (tasks w') = Some None ->
       Dict.get device (tasks w) = Some None /\ device ∉ ds.
Proof.
  revert w. induction ds as [|d ds IH]; intros w.
  - intros [= <-]. split; [done|]. intros device H. split; [done|].
    apply not_elem_of_nil.
  - rewrite for_cons.
    unfold mbind at 1, M_bind at 1, logging at 1, modify at 1.
    rewrite create_monitor_task_eq.
    destruct (open d) as [errno|nm]; simpl; [done|].
    intros [Hs Hn]%IH. split; [done|]. intros device [H1 H2]%Hn.
    simpl in H1. destruct (decide (d = device)) as [->|Hne].
    + by rewrite DictFacts.get_set_eq in H1.
    + rewrite DictFacts.get_set_ne in H1 by done. split; [done|].
      by apply not_elem_of_cons.
Qed.

Lemma no_None_entry_values w :
  Inv w -> (forall device, Dict.get device (tasks w) ≠ Some None) ->
  None ∉ Dict.values (tasks w).
Proof.
  intros HI Hn Hin.
  destruct (DictFacts.elem_values_get _ _ Hin (inv_nodup w HI)) as [device H].
  by destruct (Hn device).
Qed.

Lemma stop_precondition_after_start devs open evs :
  let w0 := exec (set_init_devices devs) init in
  outcome (start open) w0 = inr () ->
  None ∉ Dict.values (tasks (run evs (exec (start open) w0))).
Proof.
  intros w0 Hok.
  assert (Hr : reachable (exec (start open) w0)).
  { apply reach_start; [apply reach_init|].
    by apply set_init_devices_untracked. }
  assert (Hb : started (exec (start open) w0) = true
               /\ forall device,
                    Dict.get device (tasks (exec (start open) w0)) ≠ Some None).
  { unfold outcome, exec in *. rewrite start_eq in *.
    destruct (for_ _ _ (set_started true w0)) as [[e|[]] w'] eqn:F; [done|].
    destruct (start_loop_entries _ _ _ _ F) as [Hs Hn]. simpl.
    split; [done|]. intros device [H1 H2]%Hn. apply H2.
    simpl in H1. destruct (decide (device ∈ Dict.keys (tasks w0))); [done|].
    apply DictFacts.get_None_keys in n. congruence. }
  clear Hok. revert Hr Hb. generalize (exec (start open) w0). clear w0.
  induction evs as [|ev evs IH]; intros w Hr [Hs Hn]; simpl.
  - apply no_None_entry_values; [by apply reachable_Inv|done].
  - apply IH; [by apply reach_step|].
    apply step_keeps_entries_started; [by apply reachable_Inv|done..].
Qed.

(** *** [stop] does return *)

Lemma winding_down_step w t0 t :
  winding_down w t0 -> winding_down w t ->
  winding_down (step (StepTask t0 InputEvent) w) t
  /\ task_finished (step (StepTask t0 InputEvent) w) t0 = true
  /\ (t ≠ t0 -> task_finished (step (StepTask t0 InputEvent) w) t
                = task_finished w t).
Proof.
  intros (k0 & Hk0 & Hp0) (k & Hk & Hp). simpl.
  rewrite (in_loop_field (λ w, winding_down w t)) by done.
  rewrite !(in_loop_field (λ w, task_finished w _)) by done.
  unfold exec. rewrite monitor_gamepad_events_eq, Hk0. simpl.
  destruct Hp0 as [Hf|[Hr Hc]].
  - rewrite Hf. simpl. split_and!; [by exists k| |done].
    unfold task_finished. by rewrite Hk0; simpl; rewrite Hf.
  - rewrite Hr, Hc. simpl. unfold winding_down, task_finished. simpl.
    split_and!.
    + destruct (decide (t0 = t)) as [->|Hne].
      * eexists. rewrite list_lookup_alter_eq, Hk0. simpl. split; [done|].
        by left.
      * exists k. by rewrite list_lookup_alter_ne.
    + by rewrite list_lookup_alter_eq, Hk0.
    + intros Hne. by rewrite list_lookup_alter_ne.
Qed.

Lemma gather_winding_down ts w :
  (forall t, t ∈ ts -> winding_down w t) ->
  gather ts w = if forallb (task_finished w) ts then Some (inr ()) else None.
Proof.
  intros Hw. unfold gather.
  replace (existsb (task_cancelled w) ts) with false; [done|].
  symmetry. apply not_true_is_false. intros (t & Ht & Hc)%existsb_exists.
  apply list_elem_of_In, Hw in Ht. destruct Ht as (k & Hk & Hp).
  unfold task_cancelled in Hc. rewrite Hk in Hc. simpl in Hc.
  destruct Hp as [Hp|[Hp _]]; by rewrite Hp in Hc.
Qed.

Lemma await_gather_cons ts ev evs w :
  await_gather ts (ev :: evs) w =
    match gather ts w with
    | Some r => Some (r, w)
    | None => await_gather ts evs (step ev w)
    end.
Proof. done. Qed.

Lemma await_deliveries ts l w :
  (forall t, t ∈ ts -> winding_down w t) ->
  (forall t, t ∈ ts -> task_finished w t = false -> t ∈ l) ->
  (forall t, t ∈ l -> t ∈ ts) ->
  exists w', await_gather ts (deliveries l) w = Some (inr (), w').
Proof.
  revert w. induction l as [|t0 l IH]; intros w Hw Hpend Hsub.
  - exists w. simpl. rewrite gather_winding_down by done.
    replace (forallb (task_finished w) ts) with true; [done|].
    symmetry. apply forallb_forall. intros t Ht%list_elem_of_In.
    destruct (task_finished w t) eqn:F; [done|].
    by destruct (not_elem_of_nil t (Hpend t Ht F)).
  - change (deliveries (t0 :: l))
      with (StepTask t0 InputEvent :: deliveries l).
    rewrite await_gather_cons, gather_winding_down by done.
    destruct (forallb (task_finished w) ts); [by eexists|].
    assert (H0 : winding_down w t0) by (apply Hw, Hsub, elem_of_cons; auto).
    apply IH.
    + intros t Ht. by apply winding_down_step; [|apply Hw].
    + intros t Ht F. destruct (decide (t = t0)) as [->|Hne].
      * destruct (winding_down_step w t0 t0 H0 H0) as (_ & Hf & _).
        rewrite Hf in F. done.
      * destruct (winding_down_step w t0 t H0 (Hw t Ht)) as (_ & _ & He).
        rewrite He in F by done.
        apply Hpend in F; [|done].
        apply elem_of_cons in F as [?|?]; done.
    + intros t Ht. apply Hsub, elem_of_cons; auto.
Qed.

Lemma stop_can_return w :
  None ∉ Dict.values (tasks w) ->
  (forall t, Some t ∈ Dict.values (tasks w) ->
     phase_of w t = Some Reading \/ phase_of w t = Some (Finished false)) ->
  exists w',
    stop (deliveries (omap id (Dict.values (tasks w)))) w = Some (inr (), w').
Proof.
  intros Hn Hph. unfold stop. rewrite stop_begin_ok by done.
  apply await_deliveries; [|auto..].
  intros t (x & Hx & Hid)%list_elem_of_omap. simpl in Hid. subst x.
  specialize (Hph t Hx). unfold phase_of in Hph. unfold winding_down. simpl.
  destruct (loop_tasks w !! t) as [k|] eqn:Hk; [|by destruct Hph].
  rewrite (cancel_each_lookup _ _ t k Hk), bool_decide_true by done.
  eexists. split; [done|]. rewrite cancel_requested_phase. simpl in Hph.
  destruct Hph as [[= Hp]|[= Hp]]; [right|by left].
  split; [done|]. unfold cancel_requested. by rewrite Hp.
Qed.

(** C9. With every entry of [tasks] holding a task, [stop] clears the
    started flag and requests the cancellation of every task of the map.
    Whenever [stop] returns, under any schedule of the loop, every task of
    the loop has finished and the flag is still false.  And it does return:
    when the tasks of the map wait in their read or have ended by
    themselves, stepping each of them once is a schedule under which [stop]
    returns. *)
Theorem stop_cancels_and_waits_for_all :
  forall (w : World) (evs : list event),
    reachable w -> None ∉ Dict.values (tasks w) ->
    let ts := Dict.values (tasks w) in
    let w0 := exec stop_begin w in
    outcome stop_begin w = inr ts
    /\ started w0 = false
    /\ (forall t k, Some t ∈ ts -> loop_tasks w !! t = Some k ->
          loop_tasks w0 !! t = Some (cancel_requested k))
    /\ (forall w', stop evs w = Some (inr (), w') ->
          started w' = false
          /\ forall t, t < length (loop_tasks w') -> task_finished w' t = true)
    /\ ((forall t, Some t ∈ ts ->
           phase_of w t = Some Reading \/ phase_of w t = Some (Finished false)) ->
        exists w', stop (deliveries (omap id ts)) w = Some (inr (), w')).
Proof.
  intros w evs Hr Hn. cbv zeta. unfold outcome, exec.
  rewrite stop_begin_ok by done. simpl. split_and!; try done.
  - intros t k Ht Hk. by rewrite (cancel_each_lookup _ _ t k Hk), bool_decide_true.
  - intros w'. apply stop_returns_after_all_finished; [|done].
    by apply reachable_Inv.
  - by apply stop_can_return.
Qed.

(** ** The scenarios are reachable, and the theorems at work on them *)

Lemma reachable_registered : reachable registered.
Proof. apply reach_init. Qed.

Lemma reachable_booted : reachable booted.
Proof.
  apply reach_start; [apply reach_init|].
  by apply set_init_devices_untracked.
Qed.

Lemma reachable_playing : reachable playing.
Proof. apply reachable_run, reachable_booted. Qed.

Lemma reachable_locked : reachable locked.
Proof. apply reach_step, reachable_playing. Qed.

Lemma reachable_two_pads : reachable two_pads.
Proof.
  apply reachable_run, reach_start; [apply reach_init|].
  by apply set_init_devices_untracked.
Qed.

Lemma tick_samples_flag_and_drives_lock_witness :
  gamepad_active (step (tick (Some 7)) playing) = false
  /\ is_Some (fd (step (tick (Some 7)) playing)).
Proof.
  destruct (tick_samples_flag_and_drives_lock playing (Some 7) eq_refl)
    as (_ & Hflag & Hlock & _).
  split; [exact Hflag|].
  apply Hlock; [reflexivity|]. right. by exists 7.
Defined.

Lemma cancellation_releases_lock_witness :
  fd locked = Some 7
  /\ lock_state (run [StepTask 0 InputEvent; tick (Some 8)]
                   (step (WakeInhibit Cancel) locked))
     = (None, [], Some CancelledError).
Proof.
  split; [reflexivity|].
  apply (cancellation_releases_lock locked
           [StepTask 0 InputEvent; tick (Some 8)] reachable_locked eq_refl).
Defined.

Lemma one_monitor_per_path_witness :
  running_monitors two_pads event3 = [0]
  /\ length (running_monitors two_pads event3) <= 1.
Proof.
  split; [reflexivity|].
  apply (one_monitor_per_path two_pads event3 reachable_two_pads).
Defined.

(** C5 fails at [playing]: the refused request ends the coroutine with
    [DBusException], every record logged is an info record, and the next
    tick does not happen: the flag stays set and no descriptor is taken. *)
Lemma inhibit_failure_not_recovered :
  let w1 := step (tick None) playing in
  let w2 := run [StepTask 0 InputEvent; tick (Some 7)] w1 in
  (gamepad_active playing = true /\ fd playing = None /\ bridge playing = None)
  /\ levelname <$> log w1 = [INFO; INFO; INFO]
  /\ bridge w1 = Some DBusException
  /\ (gamepad_active w2 = true /\ fd w2 = None)
  /\ ~ recovers_from_inhibit_failure playing.
Proof.
  cbv zeta. split_and!; try reflexivity.
  intros (_ & _ & Hb & _). discriminate Hb.
Qed.

Lemma inhibit_failure_ends_loop_witness :
  lock_state (run [StepTask 0 InputEvent; tick (Some 7)]
                (step (tick None) playing))
  = (None, [], Some DBusException).
Proof.
  apply (inhibit_failure_ends_loop playing
           [StepTask 0 InputEvent; tick (Some 7)] eq_refl eq_refl eq_refl).
Defined.

Lemma monitor_ends_and_entry_is_removed_witness :
  let w1 := step (StepTask 0 (ReadError 19)) playing in
  Dict.get event3 (tasks w1) = Some (Some 0)
  /\ Dict.get event3 (tasks (step (DoneCallback 0) w1)) = None.
Proof.
  destruct (monitor_ends_and_entry_is_removed playing 0
              {| coro_device := 0; task_phase := Reading;
                 must_cancel := false; done_callback := Some event3 |}
              (ReadError 19) reachable_playing eq_refl eq_refl
              (or_intror (ex_intro _ 19%Z eq_refl)))
    as [(d & Hd & _ & _ & _ & Hin & Hout & _) _].
  injection Hd as <-. split; [exact Hin|exact Hout].
Defined.

Lemma remove_device_by_state_witness :
  Dict.get event3 (tasks (exec (remove_device event3) registered)) = None
  /\ Dict.get event3
       (tasks (run [CbRemove event3; StepTask 0 InputEvent; DoneCallback 0]
                 playing)) = None
  /\ remove_device event5 playing =
       (inr (), logged lg_watcher INFO (RemovingDevice event5) playing).
Proof.
  split_and!.
  - destruct (remove_device_by_state registered event3 InputEvent
                reachable_registered) as (Hreg & _ & _).
    apply (Hreg eq_refl).
  - destruct (remove_device_by_state playing event3 InputEvent
                reachable_playing) as (_ & Hrun & _).
    apply (Hrun 0 0 eq_refl eq_refl).
  - destruct (remove_device_by_state playing event5 InputEvent
                reachable_playing) as (_ & _ & Habs).
    apply (Habs eq_refl).
Defined.

(** C8 fails at [registered]: the path has an entry, [add_device] writes
    its info record and no warning. *)
Lemma duplicate_add_without_warning :
  Dict.get event3 (tasks registered) = Some None
  /\ log (exec (add_device pad event3) registered)
     = [LogRecord lg_watcher INFO (AddingDevice event3)]
  /\ ~ duplicate_add_warns registered event3.
Proof.
  split_and!; try reflexivity.
  intros H. destruct (H (ex_intro _ None eq_refl) pad) as [(rec & Hin & Hlv) _].
  change (log (exec (add_device pad event3) registered))
    with [LogRecord lg_watcher INFO (AddingDevice event3)] in Hin.
  apply list_elem_of_singleton in Hin. subst rec. discriminate Hlv.
Qed.

Lemma add_device_on_tracked_path_witness :
  add_device pad event3 playing =
    (inr (), logged lg_watcher WARNING (AlreadyPresent event3)
               (logged lg_watcher INFO (AddingDevice event3) playing))
  /\ add_device pad event3 registered =
       (inr (), logged lg_watcher INFO (AddingDevice event3) registered).
Proof.
  split.
  - apply (add_device_on_tracked_path playing pad event3 (Some 0) eq_refl).
  - apply (add_device_on_tracked_path registered pad event3 None eq_refl).
Defined.

Lemma stop_cancels_and_waits_for_all_witness :
  started (exec stop_begin two_pads) = false
  /\ exists w', stop (deliveries [0; 1]) two_pads = Some (inr (), w').
Proof.
  assert (Hn : None ∉ Dict.values (tasks two_pads)).
  { intros H. change (Dict.values (tasks two_pads)) with [Some 0; Some 1] in H.
    apply elem_of_cons in H as [H|H]; [discriminate H|].
    apply elem_of_cons in H as [H|H]; [discriminate H|].
    by apply not_elem_of_nil in H. }
  destruct (stop_cancels_and_waits_for_all two_pads [] reachable_two_pads Hn)
    as (_ & Hs & _ & _ & Hret).
  split; [exact Hs|]. apply Hret.
  intros t H. change (Dict.values (tasks two_pads)) with [Some 0; Some 1] in H.
  apply elem_of_cons in H as [H|H]; [injection H as ->; by left|].
  apply elem_of_cons in H as [H|H]; [injection H as ->; by left|].
  by apply not_elem_of_nil in H.
Defined.

Lemma stop_fails_on_unstarted_entry_witness :
  stop [] registered = Some (inl AttributeError, exec stop_begin registered)
  /\ started (exec stop_begin registered) = false.
Proof.
  destruct (stop_fails_on_unstarted_entry registered event3 [] eq_refl)
    as [(_ & Hstop & Hs & _) _].
  split; [exact Hstop|exact Hs].
Defined.

(** * Further properties of the code *)

(** ** [start] *)

Lemma start_body_ok open d nm w :
  open d = inr nm ->
  start_body open d w =
    (inr (), monitored d nm (logged lg_watcher INFO (CreateMonitorFor d) w)).
Proof.
  intros Ho. unfold start_body.
  unfold mbind at 1, M_bind at 1, logging at 1, modify at 1.
  by rewrite create_monitor_task_eq, Ho.
Qed.

Lemma start_body_fail open d errno w :
  open d = inl errno ->
  start_body open d w =
    (inl (OSError errno), logged lg_watcher INFO (CreateMonitorFor d) w).
Proof.
  intros Ho. unfold start_body.
  unfold mbind at 1, M_bind at 1, logging at 1, modify at 1.
  by rewrite create_monitor_task_eq, Ho.
Qed.

Lemma start_unfold open w :
  start open w =
    for_ (Dict.keys (tasks w)) (start_body open) (set_started true w).
Proof. done. Qed.

Lemma for_app {A} (l1 l2 : list A) (body : A -> M unit) w :
  for_ (l1 ++ l2) body w =
    match for_ l1 body w with
    | (inr _, w') => for_ l2 body w'
    | (inl e, w') => (inl e, w')
    end.
Proof.
  revert w. induction l1 as [|x l1 IH]; intros w; [done|].
  simpl app. rewrite !for_cons. destruct (body x w) as [[e|[]] w']; [done|].
  apply IH.
Qed.

Lemma keys_set_present {V} (d : Dict.t V) k v :
  k ∈ Dict.keys d -> Dict.keys (Dict.set k v d) = Dict.keys d.
Proof.
  intros Hk. rewrite DictFacts.keys_set.
  replace (Dict.mem k d) with true; [done|]. symmetry.
  apply DictFacts.mem_spec. destruct (Dict.get k d) eqn:E; [by eexists|].
  by apply DictFacts.get_None_keys in E.
Qed.

Lemma start_loop_ok open ds w :
  (forall d, d ∈ ds -> exists nm, open d = inr nm) ->
  exists w', for_ ds (start_body open) w = (inr (), w') /\ started_on ds w w'.
Proof.
  revert w. induction ds as [|d ds IH]; intros w Hopen.
  - exists w. split; [done|]. split; simpl; try done; try lia.
    + intros p Hp. by apply elem_of_nil in Hp.
    + intros t k Hle Hk. apply lookup_lt_Some in Hk. lia.
  - destruct (Hopen d) as [nm Hnm]; [apply elem_of_cons; auto|].
    rewrite for_cons, (start_body_ok open d nm) by done.
    set (w1 := monitored d nm _).
    destruct (IH w1) as (w' & Hfor & H1).
    { intros d' Hd'. apply Hopen, elem_of_cons; auto. }
    exists w'. split; [done|]. destruct H1.
    assert (Hl1 : length (loop_tasks w1) = S (length (loop_tasks w))).
    { subst w1. simpl. rewrite length_app. simpl. lia. }
    assert (He1 : length (evdev w1) = S (length (evdev w))).
    { subst w1. simpl. rewrite length_app. simpl. lia. }
    split.
    + by rewrite so_started0.
    + rewrite so_tasks0, Hl1. simpl. lia.
    + rewrite so_evdev0, He1. simpl. lia.
    + intros p Hp. destruct (decide (p ∈ ds)) as [Hin|Hnin].
      * destruct (so_new0 p Hin) as (t & Hle & Hg). exists t. split; [lia|done].
      * apply elem_of_cons in Hp as [->|?]; [|done].
        exists (length (loop_tasks w)). split; [lia|].
        rewrite so_other0 by done. subst w1. simpl.
        by rewrite DictFacts.get_set_eq.
    + intros p Hp. apply not_elem_of_cons in Hp as [Hne Hnin].
      rewrite so_other0 by done. subst w1. simpl.
      by rewrite DictFacts.get_set_ne.
    + intros t Ht. rewrite so_old0 by lia. subst w1. simpl.
      by rewrite lookup_app_l.
    + intros t k Hle Hk. destruct (decide (t = length (loop_tasks w))) as [->|Hne].
      * rewrite so_old0 in Hk by lia. subst w1. simpl in Hk.
        rewrite list_lookup_middle in Hk by done. by injection Hk as <-.
      * apply (so_created0 t k); [lia|done].
    + intros Hsub. rewrite so_keys0.
      * subst w1. simpl. apply keys_set_present, Hsub, elem_of_cons; auto.
      * intros p Hp. subst w1. simpl. rewrite keys_set_present;
          apply Hsub, elem_of_cons; auto.
Qed.

(** X3. [start] does not look at what an entry holds: when every path of
    [tasks] opens, it opens one new device and creates one new task per
    key, binds every key to its new task, and leaves the tasks that were
    there running and out of the map. *)
Theorem start_creates_task_for_every_key :
  forall (w : World) (open : opener),
    (forall d, d ∈ Dict.keys (tasks w) -> exists nm, open d = inr nm) ->
    let w' := exec (start open) w in
    outcome (start open) w = inr ()
    /\ started w' = true
    /\ Dict.keys (tasks w') = Dict.keys (tasks w)
    /\ length (loop_tasks w') = length (loop_tasks w) + length (Dict.keys (tasks w))
    /\ length (evdev w') = length (evdev w) + length (Dict.keys (tasks w))
    /\ (forall p, p ∈ Dict.keys (tasks w) ->
          exists t, length (loop_tasks w) <= t
                    /\ Dict.get p (tasks w') = Some (Some t))
    /\ (forall t, t < length (loop_tasks w) ->
          loop_tasks w' !! t = loop_tasks w !! t).
Proof.
  intros w open Hopen. cbv zeta. unfold outcome, exec. rewrite start_unfold.
  destruct (start_loop_ok open (Dict.keys (tasks w)) (set_started true w) Hopen)
    as (w' & -> & []). simpl in *. split_and!; try done.
  by apply so_keys0.
Qed.

Lemma start_creates_task_for_every_key_witness :
  length (loop_tasks (exec (start pad) playing)) = 2
  /\ Dict.get event3 (tasks (exec (start pad) playing)) = Some (Some 1)
  /\ running_monitors (exec (start pad) playing) event3 = [0; 1].
Proof.
  destruct (start_creates_task_for_every_key playing pad) as (_ & _ & _ & Hl & _).
  { intros d _. by exists "Gamepad"%string. }
  split; [exact Hl|]. split; reflexivity.
Defined.

(** ** [set_init_devices] followed by [start] *)

Lemma set_init_devices_eq devs w :
  set_init_devices devs w =
    (inr (), set_tasks (foldl (λ d p, Dict.set p None d) (tasks w) devs) w).
Proof.
  unfold set_init_devices. revert w.
  induction devs as [|p devs IH]; intros w.
  - simpl. by destruct w.
  - rewrite for_cons. unfold modify at 1. by rewrite IH.
Qed.

Lemma keys_foldl_set {V} (v : V) devs (d : Dict.t V) p :
  p ∈ Dict.keys (foldl (λ d p, Dict.set p v d) d devs)
  <-> p ∈ Dict.keys d \/ p ∈ devs.
Proof.
  revert d. induction devs as [|q devs IH]; intros d; simpl.
  - split; [auto|]. intros [?|H]; [done|]. by apply elem_of_nil in H.
  - rewrite IH, DictFacts.keys_set, elem_of_cons.
    destruct (Dict.mem q d) eqn:E.
    + apply DictFacts.mem_spec in E.
      assert (q ∈ Dict.keys d).
      { destruct (decide (q ∈ Dict.keys d)); [done|].
        apply DictFacts.get_None_keys in n. rewrite n in E. by destruct E. }
      split; [intros [?|?]; auto|]. intros [?|[->|?]]; auto.
    + rewrite elem_of_app, list_elem_of_singleton.
      split; [intros [[?|?]|?]; auto|]. intros [?|[?|?]]; auto.
Qed.

Lemma get_foldl_set_None devs (d : Dict.t (option nat)) p x :
  Dict.get p (foldl (λ d p, Dict.set p None d) d devs) = Some x ->
  x = None \/ Dict.get p d = Some x.
Proof.
  revert d. induction devs as [|q devs IH]; intros d; simpl; [auto|].
  intros [?|H]%IH; [auto|]. destruct (decide (q = p)) as [->|Hne].
  - rewrite DictFacts.get_set_eq in H. left. congruence.
  - rewrite DictFacts.get_set_ne in H by done. auto.
Qed.

Lemma running_monitors_none w p :
  (forall t, monitors w p t = false) -> running_monitors w p = [].
Proof.
  intros Hn. unfold running_monitors.
  induction (seq 0 (length (loop_tasks w))) as [|t l IH]; [done|].
  rewrite filter_cons, decide_False; [done|]. by rewrite Hn.
Qed.

Lemma running_monitors_singleton w p t :
  Inv w -> monitors w p t = true -> running_monitors w p = [t].
Proof.
  intros HI Hm.
  assert (Hin : t ∈ running_monitors w p).
  { apply list_elem_of_filter. split; [done|]. apply elem_of_seq.
    unfold monitors in Hm.
    destruct (loop_tasks w !! t) eqn:E; [|done].
    apply lookup_lt_Some in E. lia. }
  assert (Hall : forall x, x ∈ running_monitors w p -> x = t).
  { intros x [Hx _]%list_elem_of_filter.
    apply (monitors_entry w p x HI) in Hx.
    apply (monitors_entry w p t HI) in Hm. congruence. }
  assert (Hnd : NoDup (running_monitors w p))
    by apply NoDup_filter, NoDup_seq.
  destruct (running_monitors w p) as [|x [|y l]].
  - by apply elem_of_nil in Hin.
  - by rewrite (Hall x) by (apply elem_of_cons; auto).
  - apply NoDup_cons in Hnd as [Hx _]. destruct Hx.
    rewrite (Hall x), (Hall y); [apply elem_of_cons; auto|..].
    + apply elem_of_cons; right; apply elem_of_cons; auto.
    + apply elem_of_cons; auto.
Qed.

(** X1. When every path found at start-up opens, [set_init_devices]
    followed by [start] succeeds and leaves exactly one monitor per distinct
    path: the keys of [tasks] are the found paths without repetition, there
    are as many tasks and open handles as keys, and each found path is
    bound to the one task that monitors it. *)
Theorem startup_one_monitor_per_found_path :
  forall (found : list string) (open : opener),
    (forall p, p ∈ found -> exists nm, open p = inr nm) ->
    let w := exec (startup found open) init in
    outcome (startup found open) init = inr ()
    /\ started w = true
    /\ NoDup (Dict.keys (tasks w))
    /\ (forall p, p ∈ Dict.keys (tasks w) <-> p ∈ found)
    /\ length (loop_tasks w) = length (Dict.keys (tasks w))
    /\ length (evdev w) = length (Dict.keys (tasks w))
    /\ (forall p, p ∈ found ->
          exists t, Dict.get p (tasks w) = Some (Some t)
                    /\ running_monitors w p = [t]).
Proof.
  intros found open Hopen. cbv zeta.
  set (w0 := exec (set_init_devices found) init).
  assert (Hst : startup found open init = start open w0).
  { unfold startup. unfold mbind at 1, M_bind at 1.
    subst w0. unfold exec. by rewrite set_init_devices_eq. }
  assert (Hk0 : forall p, p ∈ Dict.keys (tasks w0) <-> p ∈ found).
  { intros p. subst w0. unfold exec. rewrite set_init_devices_eq. simpl.
    rewrite keys_foldl_set. split; [|auto]. intros [H|?]; [|done].
    by apply elem_of_nil in H. }
  assert (Hr : reachable (exec (start open) w0)).
  { apply reach_start; [apply reach_init|].
    by apply set_init_devices_untracked. }
  pose proof (reachable_Inv _ Hr) as HI.
  unfold outcome, exec in *. rewrite Hst, start_unfold in *.
  destruct (start_loop_ok open (Dict.keys (tasks w0)) (set_started true w0))
    as (w & Hfor & []).
  { intros d Hd. by apply Hopen, Hk0. }
  rewrite Hfor in *. simpl in *.
  assert (Hkeys : Dict.keys (tasks w) = Dict.keys (tasks w0))
    by (by apply so_keys0).
  assert (Hl0 : length (loop_tasks w0) = 0 /\ length (evdev w0) = 0).
  { subst w0. unfold exec. by rewrite set_init_devices_eq. }
  destruct Hl0 as [Hl0 He0]. rewrite Hl0 in *. rewrite He0 in *.
  split_and!; try done.
  - apply HI.
  - intros p. by rewrite Hkeys.
  - by rewrite Hkeys.
  - by rewrite Hkeys.
  - intros p Hp. destruct (so_new0 p) as (t & _ & Hg); [by apply Hk0|].
    exists t. split; [done|]. apply running_monitors_singleton; [done|].
    destruct (inv_entry w HI p t Hg) as (k & Hk & Hcb).
    destruct (inv_dev w HI t k p Hk Hcb) as (d & Hd & Hpath).
    unfold monitors. rewrite Hk, (so_created0 t k), Hd by (done || lia).
    simpl. apply bool_decide_eq_true. by rewrite Hpath.
Qed.

Lemma startup_one_monitor_per_found_path_witness :
  Dict.keys (tasks (exec (startup [event3; event5; event3] pad) init))
    = [event3; event5]
  /\ length (loop_tasks (exec (startup [event3; event5; event3] pad) init))
     = length (Dict.keys (tasks (exec (startup [event3; event5; event3] pad) init))).
Proof.
  split; [reflexivity|].
  apply (startup_one_monitor_per_found_path [event3; event5; event3] pad).
  intros p _. by exists "Gamepad"%string.
Defined.

(** X2. [start] is not all-or-nothing.  When the first path that does not
    open is [d], [start] raises that [OSError] with the started flag already
    set: the paths before [d] have their monitors, [d] and the paths after
    it keep the entries they had. *)
Theorem start_stops_at_first_failed_open :
  forall (w : World) (open : opener) (pre post : list string) (d : string)
         (errno : Z),
    Dict.keys (tasks w) = pre ++ d :: post ->
    (forall p, p ∈ pre -> exists nm, open p = inr nm) ->
    open d = inl errno ->
    let w' := exec (start open) w in
    outcome (start open) w = inl (OSError errno)
    /\ started w' = true
    /\ length (loop_tasks w') = length (loop_tasks w) + length pre
    /\ (forall p, p ∈ pre ->
          exists t, length (loop_tasks w) <= t
                    /\ Dict.get p (tasks w') = Some (Some t))
    /\ (forall p, p ∉ pre -> Dict.get p (tasks w') = Dict.get p (tasks w)).
Proof.
  intros w open pre post d errno Hkeys Hpre Hd. cbv zeta.
  unfold outcome, exec. rewrite start_unfold, Hkeys, for_app.
  destruct (start_loop_ok open pre (set_started true w) Hpre)
    as (w1 & -> & []).
  rewrite for_cons, (start_body_fail open d errno) by done. simpl in *.
  split_and!; done.
Qed.

Lemma start_stops_at_first_failed_open_witness :
  let open : opener :=
    λ p, if decide (p = event5) then inl 13%Z else inr "Gamepad"%string in
  let w := exec (set_init_devices [event3; event5]) init in
  outcome (start open) w = inl (OSError 13)
  /\ started (exec (start open) w) = true
  /\ Dict.get event5 (tasks (exec (start open) w)) = Some None.
Proof.
  cbv zeta.
  destruct (start_stops_at_first_failed_open
              (exec (set_init_devices [event3; event5]) init)
              (λ p, if decide (p = event5) then inl 13%Z else inr "Gamepad"%string)
              [event3] [] event5 13%Z eq_refl)
    as (Ho & Hs & _ & _ & Hrest).
  - intros p ->%list_elem_of_singleton. by exists "Gamepad"%string.
  - reflexivity.
  - split; [exact Ho|]. split; [exact Hs|]. reflexivity.
Defined.

(** ** Hotplug callbacks at awkward moments *)

Lemma step_CbRemove_running w p t h :
  Dict.get p (tasks w) = Some (Some t) -> Dict.get p (devices w) = Some h ->
  step (CbRemove p) w =
    set_devices (Dict.remove p (devices w))
      (set_evdev (alter closed h (evdev w))
         (set_loop_tasks (alter cancel_requested t (loop_tasks w))
            (logged lg_watcher INFO (RemovingDevice p) w))).
Proof.
  intros Ht Hh. simpl. unfold in_loop. rewrite remove_device_eq. simpl.
  by rewrite Ht, Hh.
Qed.

Lemma alter_cancel_requested_idemp t (l : list Task) :
  alter cancel_requested t (alter cancel_requested t l)
  = alter cancel_requested t l.
Proof.
  apply list_eq. intros i. destruct (decide (t = i)) as [->|Hne].
  - rewrite !list_lookup_alter_eq. destruct (l !! i); [|done]. simpl.
    by rewrite cancel_requested_idemp.
  - by rewrite !list_lookup_alter_ne.
Qed.

(** X5. Between the [remove_device] of a running path and the done
    callback of its task, a second [remove_device] for the path raises
    [KeyError] on [self.devices[device]]: the loop's exception handler gets
    it, and apart from that and the info record the world is the one the
    first call left. *)
Theorem second_remove_before_callback_raises :
  forall (w : World) (p : string) (t h : nat),
    reachable w ->
    Dict.get p (tasks w) = Some (Some t) ->
    Dict.get p (devices w) = Some h ->
    let w1 := step (CbRemove p) w in
    outcome (remove_device p) w1 = inl (KeyError p)
    /\ step (CbRemove p) w1 =
         set_loop_exceptions (loop_exceptions w1 ++ [KeyError p])
           (logged lg_watcher INFO (RemovingDevice p) w1).
Proof.
  intros w p t h Hr Ht Hh. cbv zeta.
  pose proof (reachable_Inv w Hr) as HI.
  rewrite (step_CbRemove_running w p t h) by done.
  set (w1 := set_devices _ _).
  assert (Ht1 : Dict.get p (tasks w1) = Some (Some t)) by done.
  assert (Hd1 : Dict.get p (devices w1) = None).
  { subst w1. simpl. apply DictFacts.get_remove_eq, HI. }
  assert (Hl1 : alter cancel_requested t (loop_tasks w1) = loop_tasks w1).
  { subst w1. simpl. apply alter_cancel_requested_idemp. }
  clearbody w1. split.
  - by apply (remove_device_while_stopping p t).
  - simpl. unfold in_loop. rewrite remove_device_eq. simpl.
    rewrite Ht1, Hd1. simpl. rewrite Hl1. by destruct w1.
Qed.

Lemma second_remove_before_callback_raises_witness :
  loop_exceptions (run [CbRemove event3; CbRemove event3] playing)
  = [KeyError event3].
Proof.
  destruct (second_remove_before_callback_raises playing event3 0 0
              reachable_playing eq_refl eq_refl) as [_ H].
  change (run [CbRemove event3; CbRemove event3] playing)
    with (step (CbRemove event3) (step (CbRemove event3) playing)).
  rewrite H. reflexivity.
Defined.

Lemma tasks_step_StepTask t r w : tasks (step (StepTask t r) w) = tasks w.
Proof.
  simpl. rewrite (in_loop_field tasks) by done. unfold exec.
  rewrite monitor_gamepad_events_eq.
  destruct (loop_tasks w !! t) as [k|]; [|done]. simpl.
  destruct (task_phase k), (must_cancel k); try done.
  destruct r; [done|]. by destruct (decide _).
Qed.

Lemma lengths_step ev w :
  (forall open p, ev ≠ CbAdd open p) ->
  length (loop_tasks (step ev w)) = length (loop_tasks w)
  /\ length (evdev (step ev w)) = length (evdev w).
Proof.
  intros Hev. destruct ev as [open device|device|t r|t|k].
  - by destruct (Hev open device).
  - simpl. rewrite (in_loop_field loop_tasks), (in_loop_field evdev) by done.
    unfold exec. rewrite remove_device_eq. simpl.
    destruct (Dict.get device (tasks w)) as [[?|]|]; try done.
    destruct (Dict.get device (devices w)); simpl; by rewrite !length_alter.
  - simpl. rewrite (in_loop_field loop_tasks), (in_loop_field evdev) by done.
    unfold exec. rewrite monitor_gamepad_events_eq.
    destruct (loop_tasks w !! t) as [k|]; [|done]. simpl.
    destruct (task_phase k), (must_cancel k); simpl;
      rewrite ?length_alter; try done.
    destruct r; simpl; [done|]. destruct (decide _); simpl;
      by rewrite length_alter.
  - simpl. rewrite (in_loop_field loop_tasks), (in_loop_field evdev) by done.
    unfold exec. rewrite Task_run_callback_eq.
    destruct (loop_tasks w !! t) as [k|]; [|done].
    destruct (task_phase k); try done. destruct (done_callback k); [|done].
    simpl. destruct (Dict.get _ _); simpl; by rewrite length_alter.
  - simpl. destruct (bridge w); [done|].
    destruct k as [reply|].
    + rewrite inhibit_idle_elapsed. destruct (gamepad_active w).
      * rewrite lock_idle_eq. simpl. destruct (fd w); [done|]. by destruct reply.
      * rewrite unlock_idle_eq. simpl. by destruct (fd w).
    + rewrite inhibit_idle_cancelled. unfold exec. rewrite unlock_idle_eq.
      simpl. by destruct (fd w).
Qed.

(** X4. An [add_device] that arrives between the [remove_device] of a
    running path and the done callback of its task is answered with the
    warning and creates nothing; once the cancelled task has taken its step
    and its callback has run, the path is absent and has no monitor, although
    the device was announced again. *)
Theorem add_before_callback_is_dropped :
  forall (w : World) (p : string) (t h : nat) (open : opener) (r : read_result),
    reachable w ->
    Dict.get p (tasks w) = Some (Some t) ->
    Dict.get p (devices w) = Some h ->
    let w1 := step (CbRemove p) w in
    let w' := run [CbAdd open p; StepTask t r; DoneCallback t] w1 in
    add_device open p w1 =
      (inr (), logged lg_watcher WARNING (AlreadyPresent p)
                 (logged lg_watcher INFO (AddingDevice p) w1))
    /\ Dict.get p (tasks w') = None
    /\ running_monitors w' p = []
    /\ length (loop_tasks w') = length (loop_tasks w)
    /\ length (evdev w') = length (evdev w)
    /\ loop_exceptions w' = loop_exceptions w.
Proof.
  intros w p t h open r Hr Ht Hh. cbv zeta.
  pose proof (reachable_Inv w Hr) as HI.
  destruct (inv_entry w HI p t Ht) as (k & Hk & Hcb).
  pose proof (reach_step (CbRemove p) w Hr) as Hr1.
  rewrite (step_CbRemove_running w p t h) in * by done.
  set (w1 := set_devices _ _) in *.
  assert (Ht1 : Dict.get p (tasks w1) = Some (Some t)) by done.
  assert (Hadd : add_device open p w1 =
            (inr (), logged lg_watcher WARNING (AlreadyPresent p)
                       (logged lg_watcher INFO (AddingDevice p) w1)))
    by (by apply (add_device_tracked open p t)).
  split; [done|].
  change (run [CbAdd open p; StepTask t r; DoneCallback t] w1)
    with (step (DoneCallback t) (step (StepTask t r) (step (CbAdd open p) w1))).
  pose proof (reach_step (CbAdd open p) w1 Hr1) as Hr2.
  assert (Hw2 : step (CbAdd open p) w1 =
            logged lg_watcher WARNING (AlreadyPresent p)
              (logged lg_watcher INFO (AddingDevice p) w1)).
  { simpl. unfold in_loop. by rewrite Hadd. }
  rewrite Hw2 in *. set (w2 := logged _ _ _ (logged _ _ _ w1)) in *.
  pose proof (reach_step (StepTask t r) w2 Hr2) as Hr3.
  assert (Hfin : task_finished (step (StepTask t r) w2) t = true)
    by (by apply (step_cancel_requested_finishes w2 (loop_tasks w) t k r)).
  assert (Ht3 : Dict.get p (tasks (step (StepTask t r) w2)) = Some (Some t))
    by (by rewrite tasks_step_StepTask).
  destruct (lengths_step (StepTask t r) w2) as [Hl3 He3]; [done|].
  set (w3 := step (StepTask t r) w2) in *.
  pose proof (reachable_Inv w3 Hr3) as HI3.
  destruct (inv_entry w3 HI3 p t Ht3) as (k3 & Hk3 & Hcb3).
  assert (Hp3 : exists c, task_phase k3 = Finished c).
  { unfold task_finished in Hfin. rewrite Hk3 in Hfin. simpl in Hfin.
    destruct (task_phase k3) as [| |c]; try done. by exists c. }
  destruct Hp3 as [c Hp3].
  destruct (done_callback_removes_entry w3 t k3 c p HI3 Hk3 Hp3 Hcb3)
    as (Hg4 & Hex4 & _).
  destruct (lengths_step (DoneCallback t) w3) as [Hl4 He4]; [done|].
  pose proof (reachable_Inv _ (reach_step (DoneCallback t) w3 Hr3)) as HI4.
  assert (Hex3 : loop_exceptions w3 = loop_exceptions w).
  { subst w3. simpl. unfold in_loop. rewrite monitor_gamepad_events_eq.
    destruct (loop_tasks w2 !! t) as [k2|]; [|done]. simpl.
    destruct (task_phase k2), (must_cancel k2); try done.
    destruct r; [done|]. by destruct (decide _). }
  split_and!.
  - done.
  - apply running_monitors_none. intros t'.
    destruct (monitors _ p t') eqn:E; [|done].
    apply monitors_entry in E; [|done]. congruence.
  - rewrite Hl4, Hl3. subst w2 w1. simpl. by rewrite length_alter.
  - rewrite He4, He3. subst w2 w1. simpl. by rewrite length_alter.
  - by rewrite Hex4, Hex3.
Qed.

Lemma add_before_callback_is_dropped_witness :
  Dict.get event3
    (tasks (run [CbAdd pad event3; StepTask 0 InputEvent; DoneCallback 0]
              (step (CbRemove event3) playing))) = None
  /\ running_monitors
       (run [CbAdd pad event3; StepTask 0 InputEvent; DoneCallback 0]
          (step (CbRemove event3) playing)) event3 = [].
Proof.
  destruct (add_before_callback_is_dropped playing event3 0 0 pad InputEvent
              reachable_playing eq_refl eq_refl) as (_ & H1 & H2 & _).
  split; [exact H1|exact H2].
Defined.

Lemma add_device_untracked open p w :
  untracked p w -> started w = true ->
  add_device open p w =
    create_monitor_task open p (logged lg_watcher INFO (AddingDevice p) w).
Proof.
  intros Hu Hs. rewrite add_device_eq. simpl. rewrite Hs. unfold untracked in Hu.
  by destruct (Dict.get p (tasks w)) as [[?|]|].
Qed.

Lemma monitors_monitored p nm w :
  monitors (monitored p nm w) p (length (loop_tasks w)) = true.
Proof.
  unfold monitors. simpl. rewrite list_lookup_middle by done. simpl.
  rewrite list_lookup_middle by done. simpl. by apply bool_decide_eq_true.
Qed.

(** X6. On a started watcher, an [add_device] whose device cannot be opened
    raises the [OSError] before anything is stored: the loop's handler gets
    the exception and only the info record is new.  The path stays
    untracked, so the next [add_device] for it opens the device and is its
    one monitor. *)
Theorem failed_open_leaves_path_untracked :
  forall (w : World) (open open' : opener) (p nm : string) (errno : Z),
    reachable w -> started w = true -> untracked p w ->
    open p = inl errno -> open' p = inr nm ->
    let w1 := step (CbAdd open p) w in
    let w2 := step (CbAdd open' p) w1 in
    w1 = set_loop_exceptions (loop_exceptions w ++ [OSError errno])
           (logged lg_watcher INFO (AddingDevice p) w)
    /\ Dict.get p (tasks w2) = Some (Some (length (loop_tasks w)))
    /\ running_monitors w2 p = [length (loop_tasks w)]
    /\ loop_exceptions w2 = loop_exceptions w1.
Proof.
  intros w open open' p nm errno Hr Hs Hu Ho Ho'. cbv zeta.
  assert (H1 : step (CbAdd open p) w =
            set_loop_exceptions (loop_exceptions w ++ [OSError errno])
              (logged lg_watcher INFO (AddingDevice p) w)).
  { simpl. unfold in_loop.
    by rewrite add_device_untracked, create_monitor_task_eq, Ho. }
  pose proof (reach_step (CbAdd open' p)  _ (reach_step (CbAdd open p) w Hr))
    as Hr2.
  rewrite H1 in *. set (w1 := set_loop_exceptions _ _) in *.
  assert (H2 : step (CbAdd open' p) w1 =
            monitored p nm (logged lg_watcher INFO (AddingDevice p) w1)).
  { simpl. unfold in_loop.
    by rewrite add_device_untracked, create_monitor_task_eq, Ho'. }
  rewrite H2 in *. split_and!; try done.
  - simpl. by rewrite DictFacts.get_set_eq.
  - apply running_monitors_singleton; [by apply reachable_Inv|].
    apply (monitors_monitored p nm (logged lg_watcher INFO (AddingDevice p) w1)).
Qed.

Lemma failed_open_leaves_path_untracked_witness :
  let open : opener := λ _, inl 2%Z in
  running_monitors (step (CbAdd pad event5) (step (CbAdd open event5) playing))
    event5 = [1].
Proof.
  cbv zeta.
  destruct (failed_open_leaves_path_untracked playing (λ _, inl 2%Z) pad
              event5 "Gamepad" 2%Z reachable_playing eq_refl eq_refl
              eq_refl eq_refl) as (_ & _ & H & _).
  exact H.
Defined.

(** ** The handles in [devices] *)

Lemma handles_open_frame w w' :
  devices w' = devices w -> evdev w' = evdev w ->
  handles_open w -> handles_open w'.
Proof. intros Hd He H p h. rewrite Hd, He. apply H. Qed.

Lemma handles_open_monitored p nm w :
  handles_open w -> handles_open (monitored p nm w).
Proof.
  intros H q h. simpl. destruct (decide (p = q)) as [->|Hne].
  - rewrite DictFacts.get_set_eq. intros [= <-].
    exists (opened q nm). by rewrite list_lookup_middle.
  - rewrite DictFacts.get_set_ne by done. intros (d & Hd & ?)%H.
    exists d. split; [by apply lookup_app_l_Some|done].
Qed.

Lemma handles_open_create open p w :
  handles_open w -> handles_open (exec (create_monitor_task open p) w).
Proof.
  intros H. unfold exec. rewrite create_monitor_task_eq.
  destruct (open p); [done|]. by apply handles_open_monitored.
Qed.

Lemma handles_open_closed p h w :
  NoDup (Dict.keys (devices w)) -> Dict.get p (devices w) = Some h ->
  handles_open w ->
  handles_open (set_devices (Dict.remove p (devices w))
                  (set_evdev (alter closed h (evdev w)) w)).
Proof.
  intros Hnd Hh H q h'. simpl. destruct (decide (p = q)) as [->|Hne].
  - by rewrite DictFacts.get_remove_eq.
  - rewrite DictFacts.get_remove_ne by done. intros Hq.
    destruct (H q h' Hq) as (d' & Hd' & Ho' & Hp').
    destruct (H p h Hh) as (d & Hd & _ & Hp).
    exists d'. split; [|done]. rewrite list_lookup_alter_ne; [done|].
    intros <-. congruence.
Qed.

Lemma handles_open_step ev w : Inv w -> handles_open w -> handles_open (step ev w).
Proof.
  intros HI H. destruct ev as [open device|device|t r|t|k].
  - simpl. unfold in_loop.
    assert (H' : handles_open (exec (add_device open device) w)).
    { unfold exec. rewrite add_device_eq. simpl.
      destruct (Dict.get device (tasks w)) as [[?|]|]; try done;
        (destruct (started w); [|done]);
        by apply (handles_open_create open device (logged _ _ _ w)). }
    unfold exec in H'. by destruct (add_device open device w) as [[e|[]] w'].
  - simpl. unfold in_loop. rewrite remove_device_eq. simpl.
    destruct (Dict.get device (tasks w)) as [[t|]|]; try done.
    destruct (Dict.get device (devices w)) as [h|] eqn:Hh; simpl; [|done].
    apply (handles_open_closed device h
             (set_loop_tasks _ (logged _ _ _ w))); [apply HI|done..].
  - simpl. unfold in_loop. rewrite monitor_gamepad_events_eq.
    destruct (loop_tasks w !! t) as [k|]; [|done]. simpl.
    destruct (task_phase k), (must_cancel k); try done.
    destruct r; [done|]. by destruct (decide _).
  - simpl. unfold in_loop. rewrite Task_run_callback_eq.
    destruct (loop_tasks w !! t) as [k|]; [|done].
    destruct (task_phase k); try done. destruct (done_callback k); [|done].
    simpl. by destruct (Dict.get _ _).
  - simpl. destruct (bridge w); [done|]. destruct k as [reply|].
    + rewrite inhibit_idle_elapsed. destruct (gamepad_active w).
      * rewrite lock_idle_eq. simpl. destruct (fd w); [done|]. by destruct reply.
      * rewrite unlock_idle_eq. simpl. by destruct (fd w).
    + rewrite inhibit_idle_cancelled. unfold exec. rewrite unlock_idle_eq.
      simpl. by destruct (fd w).
Qed.

Lemma handles_open_start_loop open ds w :
  handles_open w -> handles_open (exec (for_ ds (start_body open)) w).
Proof.
  unfold exec. revert w. induction ds as [|d ds IH]; intros w H; [done|].
  rewrite for_cons. destruct (open d) as [errno|nm] eqn:Ho.
  - by rewrite (start_body_fail open d errno).
  - rewrite (start_body_ok open d nm) by done. apply IH.
    by apply handles_open_monitored.
Qed.

Lemma fields_cancel_all ts w :
  devices (exec (for_ ts cancel) w) = devices w
  /\ evdev (exec (for_ ts cancel) w) = evdev w.
Proof.
  unfold exec. revert w. induction ts as [|[t|] ts IH]; intros w; [done|..].
  - rewrite for_cons. simpl. by destruct (IH (set_loop_tasks
      (alter cancel_requested t (loop_tasks w)) w)) as [-> ->].
  - done.
Qed.

Lemma reachable_handles_open w : reachable w -> handles_open w.
Proof.
  induction 1 as [devs|ev w Hr IH|open w Hr IH Hu|w Hr IH].
  - unfold exec. rewrite set_init_devices_eq. by intros p h.
  - apply handles_open_step; [by apply reachable_Inv|done].
  - unfold exec. rewrite start_unfold.
    by apply (handles_open_start_loop open _ (set_started true w)).
  - unfold exec. rewrite stop_begin_eq.
    destruct (fields_cancel_all (Dict.values (tasks w)) (set_started false w))
      as [Hd He]. unfold exec in Hd, He.
    destruct (for_ _ _ _) as [[e|[]] w']; simpl in *;
      by apply (handles_open_frame w).
Qed.

(** X7. In every reachable world each handle stored in [devices] is an open
    [InputDevice] that was opened on the path it is stored under:
    [remove_device] closes a handle only as it takes it out of the dict. *)
Theorem devices_hold_open_handles :
  forall (w : World) (p : string) (h : nat),
    reachable w -> Dict.get p (devices w) = Some h ->
    exists d, evdev w !! h = Some d /\ is_open d = true /\ path d = p.
Proof. intros w p h Hr. by apply reachable_handles_open. Qed.

Lemma devices_hold_open_handles_witness :
  exists d, evdev two_pads !! 1 = Some d /\ is_open d = true /\ path d = event5.
Proof.
  apply (devices_hold_open_handles two_pads event5 1 reachable_two_pads eq_refl).
Defined.

Lemma devices_step_DoneCallback t w :
  devices (step (DoneCallback t) w) = devices w.
Proof.
  simpl. rewrite (in_loop_field devices) by done. unfold exec.
  rewrite Task_run_callback_eq. destruct (loop_tasks w !! t) as [k|]; [|done].
  destruct (task_phase k); try done. destruct (done_callback k); [|done].
  simpl. by destruct (Dict.get _ _).
Qed.

(** X8. A monitor that ends on a read error leaves its handle behind: after
    its done callback the path is absent from [tasks] but [devices] still
    holds the handle, open, and a [remove_device] for the path returns on
    the absent entry without closing it. *)
Theorem ended_monitor_leaves_handle_open :
  forall (w : World) (t h : nat) (k : Task) (p : string) (errno : Z),
    reachable w ->
    loop_tasks w !! t = Some k -> task_phase k = Reading ->
    must_cancel k = false ->
    Dict.get p (tasks w) = Some (Some t) ->
    Dict.get p (devices w) = Some h ->
    let w' := run [StepTask t (ReadError errno); DoneCallback t; CbRemove p] w in
    coro_device k = h
    /\ Dict.get p (tasks w') = None
    /\ Dict.get p (devices w') = Some h
    /\ (exists d, evdev w' !! h = Some d /\ is_open d = true /\ path d = p)
    /\ loop_exceptions w' = loop_exceptions w.
Proof.
  intros w t h k p errno Hr Hk Hp Hc Ht Hh. cbv zeta.
  pose proof (reachable_Inv w Hr) as HI.
  pose proof (inv_handle w HI p t h k Ht Hh Hk) as Hco.
  destruct (reading_has_callback w t k HI Hk Hp) as (d & Hd & Hcb & Hent).
  assert (path d = p) as Hpd.
  { destruct (decide (path d = p)) as [|Hne]; [done|].
    destruct (inv_entry w HI p t Ht) as (k' & Hk' & Hcb'). congruence. }
  change (run [StepTask t (ReadError errno); DoneCallback t; CbRemove p] w)
    with (step (CbRemove p)
            (step (DoneCallback t) (step (StepTask t (ReadError errno)) w))).
  pose proof (reach_step (StepTask t (ReadError errno)) w Hr) as Hr1.
  rewrite (step_Reading_ends w t k (ReadError errno) d) in * by eauto.
  set (w1 := set_loop_tasks _ _) in *.
  assert (Hk1 : loop_tasks w1 !! t = Some (in_phase (Finished false) k)).
  { subst w1. simpl. by rewrite list_lookup_alter_eq, Hk. }
  pose proof (reachable_Inv w1 Hr1) as HI1.
  destruct (done_callback_removes_entry w1 t _ false p HI1 Hk1)
    as (Hg2 & Hex2 & _); [done|by rewrite <- Hpd|].
  pose proof (devices_step_DoneCallback t w1) as Hd2.
  pose proof (reach_step (DoneCallback t) w1 Hr1) as Hr2.
  set (w2 := step (DoneCallback t) w1) in *.
  assert (H3 : step (CbRemove p) w2 =
            logged lg_watcher INFO (RemovingDevice p) w2).
  { simpl. unfold in_loop. by rewrite remove_device_absent. }
  pose proof (reach_step (CbRemove p) w2 Hr2) as Hr3.
  rewrite H3 in *.
  assert (Hh3 : Dict.get p (devices (logged lg_watcher INFO
                  (RemovingDevice p) w2)) = Some h).
  { simpl. by rewrite Hd2. }
  split_and!.
  - done.
  - done.
  - done.
  - by apply reachable_handles_open.
  - simpl. by rewrite Hex2.
Qed.

Lemma ended_monitor_leaves_handle_open_witness :
  Dict.get event3
    (devices (run [StepTask 0 (ReadError 19); DoneCallback 0; CbRemove event3]
                playing)) = Some 0.
Proof.
  destruct (ended_monitor_leaves_handle_open playing 0 0
              {| coro_device := 0; task_phase := Reading;
                 must_cancel := false; done_callback := Some event3 |}
              event3 19%Z reachable_playing eq_refl eq_refl eq_refl
              eq_refl eq_refl) as (_ & _ & H & _).
  exact H.
Defined.

(** ** The sampling window *)

Lemma is_tick_false ev : is_tick ev = false -> forall reply, ev ≠ tick reply.
Proof. intros H reply ->. done. Qed.

Lemma run_flag_kept evs w :
  Forall (λ ev, is_tick ev = false) evs ->
  gamepad_active w = true -> gamepad_active (run evs w) = true.
Proof.
  revert w. induction evs as [|ev evs IH]; intros w Hall Ha; [done|].
  apply Forall_cons in Hall as [Hev Hall]. simpl. apply IH; [done|].
  apply flag_kept_until_sampled; [by apply is_tick_false|done].
Qed.

Lemma flag_clear_without_input ev w :
  is_input ev = false ->
  gamepad_active w = false -> gamepad_active (step ev w) = false.
Proof.
  intros Hev Ha. destruct ev as [open device|device|t r|t|k].
  - simpl. rewrite (in_loop_field gamepad_active) by done. unfold exec.
    rewrite add_device_eq. simpl.
    destruct (Dict.get device (tasks w)) as [[?|]|]; try done;
      (destruct (started w); [|done]); rewrite create_monitor_task_eq;
      by destruct (open device).
  - simpl. rewrite (in_loop_field gamepad_active) by done. unfold exec.
    rewrite remove_device_eq. simpl.
    destruct (Dict.get device (tasks w)) as [[?|]|]; try done.
    by destruct (Dict.get device (devices w)).
  - simpl. rewrite (in_loop_field gamepad_active) by done. unfold exec.
    rewrite monitor_gamepad_events_eq.
    destruct (loop_tasks w !! t) as [k|]; [|done].
    simpl. destruct (task_phase k), (must_cancel k); try done.
    destruct r; [done|]. by destruct (decide _).
  - simpl. rewrite (in_loop_field gamepad_active) by done. unfold exec.
    rewrite Task_run_callback_eq. destruct (loop_tasks w !! t) as [k|]; [|done].
    destruct (task_phase k); try done. destruct (done_callback k); [|done].
    simpl. by destruct (Dict.get _ _).
  - simpl. destruct (bridge w); [done|]. destruct k as [reply|].
    + rewrite inhibit_idle_elapsed, Ha, unlock_idle_eq. simpl.
      by destruct (fd w).
    + rewrite inhibit_idle_cancelled. unfold exec. rewrite unlock_idle_eq.
      simpl. by destruct (fd w).
Qed.

Lemma run_flag_clear evs w :
  Forall (λ ev, is_input ev = false) evs ->
  gamepad_active w = false -> gamepad_active (run evs w) = false.
Proof.
  revert w. induction evs as [|ev evs IH]; intros w Hall Ha; [done|].
  apply Forall_cons in Hall as [Hev Hall]. simpl. apply IH; [done|].
  by apply flag_clear_without_input.
Qed.

(** X9. The sampler is level-triggered.  One input event read by a monitor
    anywhere in the window, whatever else the loop runs before the tick,
    leaves the flag set at the tick; that tick clears the flag and holds the
    lock, provided it was held already or logind grants it. *)
Theorem input_in_window_holds_lock :
  forall (w : World) (t : nat) (k : Task) (evs : list event)
         (reply : option nat),
    loop_tasks w !! t = Some k -> task_phase k = Reading ->
    must_cancel k = false ->
    Forall (λ ev, is_tick ev = false) evs ->
    let w' := run (StepTask t InputEvent :: evs) w in
    gamepad_active w' = true
    /\ (bridge w' = None -> is_Some (fd w') \/ is_Some reply ->
        gamepad_active (step (tick reply) w') = false
        /\ is_Some (fd (step (tick reply) w'))).
Proof.
  intros w t k evs reply Hk Hp Hc Hall. cbv zeta.
  assert (Ha : gamepad_active (run (StepTask t InputEvent :: evs) w) = true).
  { change (run (StepTask t InputEvent :: evs) w)
      with (run evs (step (StepTask t InputEvent) w)).
    apply run_flag_kept; [done|]. by apply (input_event_sets_flag w t k). }
  split; [done|]. set (w' := run _ w) in *. clearbody w'.
  intros Hb Hor. simpl. rewrite Hb, inhibit_idle_elapsed, Ha, lock_idle_eq.
  simpl. destruct (fd w') as [h|] eqn:F; simpl; [by rewrite F|].
  destruct reply as [h|]; simpl; [by eauto|].
  destruct Hor as [[? ?]|[? ?]]; done.
Qed.

Lemma input_in_window_holds_lock_witness :
  is_Some (fd (step (tick (Some 7))
                 (run [StepTask 0 InputEvent; CbAdd pad event5;
                       StepTask 1 InputEvent]
                    (step (StepTask 0 InputEvent) booted)))).
Proof.
  destruct (input_in_window_holds_lock
              (step (StepTask 0 InputEvent) booted) 0
              {| coro_device := 0; task_phase := Reading;
                 must_cancel := false; done_callback := Some event3 |}
              [CbAdd pad event5; StepTask 1 InputEvent] (Some 7)
              eq_refl eq_refl eq_refl) as [_ H].
  - repeat constructor.
  - apply H; [reflexivity|]. right. by exists 7.
Defined.

(** X10. With the flag clear and no input event read, the flag is still
    clear at the tick, however many hotplug callbacks, read errors, done
    callbacks and earlier ticks the loop runs; the tick then leaves no
    descriptor in [fd] and no inhibitor held. *)
Theorem quiet_window_releases_lock :
  forall (w : World) (evs : list event) (reply : option nat),
    reachable w -> gamepad_active w = false ->
    Forall (λ ev, is_input ev = false) evs ->
    let w' := run evs w in
    gamepad_active w' = false
    /\ (bridge w' = None ->
        fd (step (tick reply) w') = None
        /\ inhibitors (step (tick reply) w') = []).
Proof.
  intros w evs reply Hr Ha Hall. cbv zeta.
  pose proof (run_flag_clear evs w Hall Ha) as Ha'.
  split; [done|]. intros Hb.
  pose proof (inv_lock _ (reachable_Inv _
                (reach_step (tick reply) _ (reachable_run evs w Hr)))) as Hl.
  set (w' := run evs w) in *. clearbody w'.
  assert (Hf : fd (step (tick reply) w') = None).
  { simpl. rewrite Hb, inhibit_idle_elapsed, Ha', unlock_idle_eq. simpl.
    by destruct (fd w') eqn:F; simpl; rewrite ?F. }
  split; [done|]. by rewrite Hl, Hf.
Qed.

Lemma quiet_window_releases_lock_witness :
  fd (step (tick (Some 8))
        (run [StepTask 0 (ReadError 19); DoneCallback 0] locked)) = None
  /\ inhibitors (step (tick (Some 8))
        (run [StepTask 0 (ReadError 19); DoneCallback 0] locked)) = [].
Proof.
  destruct (quiet_window_releases_lock locked
              [StepTask 0 (ReadError 19); DoneCallback 0] (Some 8)
              reachable_locked eq_refl) as [_ H].
  - repeat constructor.
  - apply H. reflexivity.
Defined.

(** ** The udev observer *)

Section finder.
Import GamepadsFinder.

Lemma on_new_event_cases (device : Device) :
  on_new_event device =
    match Dict.get "ID_INPUT_JOYSTICK" (properties device) with
    | None => inr []
    | Some v =>
        if bool_decide (action device ∈ [Some "add"%string; Some "remove"%string])
        then
          if decide (v = "1"%string)
          then
            if String.prefix "event" (sys_name device)
            then inr [LoggerInfo device;
                      CallSoonThreadsafe
                        (if decide (action device = Some "add"%string)
                         then cb_add else cb_remove) (device_node device)]
            else inr []
          else if decide (v = "0"%string) then inr []
               else inl (PropertyValueError v)
        else inr []
    end.
Proof.
  unfold on_new_event, asbool, get_device_path, SYS_NAME_PREFIX.
  destruct (Dict.get _ _) as [v|]; destruct (bool_decide _); try done.
  destruct (decide (v = "1"%string)); [done|]. by destruct (decide _).
Qed.

(** X11. [_on_new_event] hands a callback to the loop exactly when the
    action is add or remove, the device carries ID_INPUT_JOYSTICK = 1 and
    its sys name starts with "event": [cb_add] for add, [cb_remove] for
    remove, both with the device node, after one info record.  A device
    without the property is passed over without an error, and whatever is
    handed over is that one callback. *)
Theorem on_new_event_hands_over_iff :
  forall (device : Device) (cb : callback),
    (on_new_event device =
       inr [LoggerInfo device; CallSoonThreadsafe cb (device_node device)]
     <-> Dict.get "ID_INPUT_JOYSTICK" (properties device) = Some "1"%string
         /\ String.prefix "event" (sys_name device) = true
         /\ ((action device = Some "add"%string /\ cb = cb_add)
             \/ (action device = Some "remove"%string /\ cb = cb_remove)))
    /\ (Dict.get "ID_INPUT_JOYSTICK" (properties device) = None ->
        on_new_event device = inr [])
    /\ (forall effs, on_new_event device = inr effs ->
          effs = []
          \/ exists cb',
               effs = [LoggerInfo device;
                       CallSoonThreadsafe cb' (device_node device)]).
Proof.
  intros device cb. rewrite on_new_event_cases. split_and!.
  - destruct (Dict.get _ _) as [v|]; [|split; [done|by intros [? _]]].
    case_bool_decide as Hact.
    + destruct (decide (v = "1"%string)) as [->|Hv].
      * destruct (String.prefix _ _).
        -- apply elem_of_cons in Hact as [Hadd|Hact].
           ++ rewrite decide_True by done. split.
              ** intros [= <-]. split_and!; auto.
              ** intros (_ & _ & [[_ ->]|[Hr _]]); [done|congruence].
           ++ apply list_elem_of_singleton in Hact.
              rewrite decide_False by congruence. split.
              ** intros [= <-]. split_and!; auto.
              ** intros (_ & _ & [[Ha _]|[_ ->]]); [congruence|done].
        -- split; [done|]. by intros (_ & ? & _).
      * split; [|intros ([= ?] & _); done].
        by destruct (decide (v = "0"%string)).
    + split; [done|]. intros (_ & _ & [[Ha _]|[Ha _]]); destruct Hact;
        rewrite Ha; [apply elem_of_cons; auto|].
      apply elem_of_cons; right. by apply list_elem_of_singleton.
  - by intros ->.
  - intros effs. destruct (Dict.get _ _) as [v|]; [|intros [= <-]; auto].
    destruct (bool_decide _); [|intros [= <-]; auto].
    destruct (decide (v = "1"%string)).
    + destruct (String.prefix _ _); intros [= <-]; eauto.
    + destruct (decide _); [intros [= <-]; auto|done].
Qed.

Lemma on_new_event_hands_over_iff_witness :
  let joystick :=
    {| action := Some "remove"%string;
       properties := [("ID_INPUT_JOYSTICK"%string, "1"%string)];
       sys_name := "event3"; device_node := Some event3 |} in
  on_new_event joystick =
    inr [LoggerInfo joystick; CallSoonThreadsafe cb_remove (Some event3)].
Proof.
  cbv zeta.
  apply (on_new_event_hands_over_iff
           {| action := Some "remove"%string;
              properties := [("ID_INPUT_JOYSTICK"%string, "1"%string)];
              sys_name := "event3"; device_node := Some event3 |} cb_remove).
  split_and!; [reflexivity..|]. right. by split.
Defined.

End finder.

(** X12. A udev event that is not an add or remove of a joystick event node
    never reaches the watcher: whatever [_on_new_event] does with it, the
    loop is handed nothing and the world stays as it is. *)
Theorem unmatched_udev_event_changes_nothing :
  forall (device : GamepadsFinder.Device) (open : opener) (w : World),
    Dict.get "ID_INPUT_JOYSTICK" (GamepadsFinder.properties device)
      ≠ Some "1"%string
    \/ String.prefix "event" (GamepadsFinder.sys_name device) = false
    \/ (GamepadsFinder.action device ≠ Some "add"%string
        /\ GamepadsFinder.action device ≠ Some "remove"%string) ->
    GamepadsFinder.delivered open device w = w.
Proof.
  intros device open w H. unfold GamepadsFinder.delivered.
  rewrite on_new_event_cases.
  destruct (Dict.get _ _) as [v|]; [|done].
  case_bool_decide as Hact.
  - destruct (decide (v = "1"%string)) as [->|Hv].
    + destruct (String.prefix _ _).
      * destruct H as [H|[H|[H1 H2]]]; [done..|].
        apply elem_of_cons in Hact as [?|Hact]; [done|].
        by apply list_elem_of_singleton in Hact.
      * done.
    + by destruct (decide _).
  - done.
Qed.

Lemma unmatched_udev_event_changes_nothing_witness :
  GamepadsFinder.delivered pad
    {| GamepadsFinder.action := Some "add"%string;
       GamepadsFinder.properties := [("ID_INPUT_KEYBOARD"%string, "1"%string)];
       GamepadsFinder.sys_name := "event7";
       GamepadsFinder.device_node := Some "/dev/input/event7"%string |}
    playing = playing.
Proof.
  apply unmatched_udev_event_changes_nothing. left. discriminate.
Defined.

(** ** [stop] in the run of the program *)

(** X13. Once [set_init_devices] and [start] have returned, whatever the
    loop runs afterwards, no entry of [tasks] is [None] and the synchronous
    part of [stop] completes: it cannot raise [AttributeError]. *)
Theorem stop_cannot_fail_after_startup :
  forall (found : list string) (open : opener) (evs : list event),
    outcome (startup found open) init = inr () ->
    let w := run evs (exec (startup found open) init) in
    (None ∉ Dict.values (tasks w))
    /\ outcome stop_begin w = inr (Dict.values (tasks w)).
Proof.
  intros found open evs Hok. cbv zeta.
  assert (Hst : startup found open init =
                start open (exec (set_init_devices found) init)).
  { unfold startup. unfold mbind at 1, M_bind at 1.
    unfold exec. by rewrite set_init_devices_eq. }
  unfold outcome, exec in *. rewrite Hst in *.
  pose proof (stop_precondition_after_start found open evs Hok) as Hn.
  unfold exec in Hn. split; [done|]. by rewrite stop_begin_ok.
Qed.

Lemma stop_cannot_fail_after_startup_witness :
  outcome stop_begin
    (run [CbAdd pad event5; CbRemove event3]
       (exec (startup [event3] pad) init))
  = inr [Some 0; Some 1].
Proof.
  apply (stop_cannot_fail_after_startup [event3] pad
           [CbAdd pad event5; CbRemove event3] eq_refl).
Defined.

(** ** A watcher that is not started *)

Lemma step_unstarted_entries ev w p t :
  Inv w -> started w = false ->
  Dict.get p (tasks (step ev w)) = Some (Some t) ->
  Dict.get p (tasks w) = Some (Some t).
Proof.
  intros HI Hs. destruct ev as [open device|device|t0 r|t0|k].
  - simpl. rewrite (in_loop_field tasks) by done. unfold exec.
    rewrite add_device_eq. simpl. rewrite Hs.
    destruct (Dict.get device (tasks w)) as [[?|]|] eqn:E; try done; simpl;
      (destruct (decide (device = p)) as [->|Hne];
         [by rewrite DictFacts.get_set_eq
         |by rewrite DictFacts.get_set_ne]).
  - simpl. rewrite (in_loop_field tasks) by done. unfold exec.
    rewrite remove_device_eq. simpl.
    destruct (Dict.get device (tasks w)) as [[?|]|] eqn:E; try done.
    + by destruct (Dict.get device (devices w)).
    + simpl. destruct (decide (device = p)) as [->|Hne].
      * rewrite DictFacts.get_remove_eq; [done|apply HI].
      * by rewrite DictFacts.get_remove_ne.
  - by rewrite tasks_step_StepTask.
  - simpl. rewrite (in_loop_field tasks) by done. unfold exec.
    rewrite Task_run_callback_eq.
    destruct (loop_tasks w !! t0) as [k|]; [|done].
    destruct (task_phase k); try done.
    destruct (done_callback k) as [device|]; [|done]. simpl.
    destruct (Dict.get device (tasks w)); simpl; [|done].
    destruct (decide (device = p)) as [->|Hne].
    + rewrite DictFacts.get_remove_eq; [done|apply HI].
    + by rewrite DictFacts.get_remove_ne.
  - simpl. destruct (bridge w); [done|].
    pose proof (tasks_inhibit_idle k w) as H. unfold exec in H.
    destruct (inhibit_idle_when_gamepads_active k w) as [[e|[]] w'];
      simpl in *; by rewrite H.
Qed.

Lemma length_evdev_step_unstarted ev w :
  started w = false -> length (evdev (step ev w)) = length (evdev w).
Proof.
  intros Hs. destruct ev as [open device|device|t r|t|k];
    try (by apply lengths_step).
  simpl. rewrite (in_loop_field evdev) by done. unfold exec.
  rewrite add_device_eq. simpl. rewrite Hs.
  by destruct (Dict.get device (tasks w)) as [[?|]|].
Qed.

(** X14. While the started flag is false (before [start], after [stop])
    hotplug callbacks only register and unregister paths: whatever the loop
    runs, the flag stays false, no device is opened, no task is created and
    no entry of [tasks] comes to hold a task. *)
Theorem unstarted_watcher_opens_nothing :
  forall (w : World) (evs : list event),
    reachable w -> started w = false ->
    let w' := run evs w in
    started w' = false
    /\ length (loop_tasks w') = length (loop_tasks w)
    /\ length (evdev w') = length (evdev w)
    /\ (forall p t, Dict.get p (tasks w') = Some (Some t) ->
          Dict.get p (tasks w) = Some (Some t)).
Proof.
  intros w evs. revert w. induction evs as [|ev evs IH]; intros w Hr Hs;
    cbv zeta; [done|].
  change (run (ev :: evs) w) with (run evs (step ev w)).
  destruct (step_unstarted ev w Hs) as [Hs1 Hl1].
  destruct (IH (step ev w) (reach_step ev w Hr) Hs1) as (H1 & H2 & H3 & H4).
  split_and!.
  - done.
  - by rewrite H2.
  - by rewrite H3, length_evdev_step_unstarted.
  - intros p t Hg%H4.
    by apply (step_unstarted_entries ev w p t (reachable_Inv w Hr)).
Qed.

Lemma unstarted_watcher_opens_nothing_witness :
  length (evdev (run [CbAdd pad event5; CbRemove event3; CbAdd pad event3]
                   registered)) = 0.
Proof.
  apply (unstarted_watcher_opens_nothing registered
           [CbAdd pad event5; CbRemove event3; CbAdd pad event3]
           reachable_registered eq_refl).
Defined.

(** ** Shutdown *)

(** A coroutine that has ended holds no descriptor. *)
Lemma fields_start_loop open ds w :
  fd (exec (for_ ds (start_body open)) w) = fd w
  /\ bridge (exec (for_ ds (start_body open)) w) = bridge w.
Proof.
  unfold exec. revert w. induction ds as [|d ds IH]; intros w; [done|].
  rewrite for_cons. destruct (open d) as [errno|nm] eqn:Ho.
  - by rewrite (start_body_fail open d errno).
  - rewrite (start_body_ok open d nm) by done.
    by destruct (IH (monitored d nm
         (logged lg_watcher INFO (CreateMonitorFor d) w))) as [-> ->].
Qed.

Lemma lock_fields_cancel_all ts w :
  fd (exec (for_ ts cancel) w) = fd w
  /\ bridge (exec (for_ ts cancel) w) = bridge w.
Proof.
  unfold exec. revert w. induction ts as [|[t|] ts IH]; intros w; [done|..].
  - rewrite for_cons. simpl. by destruct (IH (set_loop_tasks
      (alter cancel_requested t (loop_tasks w)) w)) as [-> ->].
  - done.
Qed.

Lemma reachable_ended_unlocked w e :
  reachable w -> bridge w = Some e -> fd w = None.
Proof.
  intros Hr. revert e.
  induction Hr as [devs|ev w Hr IH|open w Hr IH Hu|w Hr IH]; intros e.
  - unfold exec. by rewrite set_init_devices_eq.
  - assert (Hcase : (forall k, ev ≠ WakeInhibit k) ->
              bridge (step ev w) = Some e -> fd (step ev w) = None).
    { intros Hev Hb'. pose proof (lock_state_watcher ev w Hev) as Hl.
      unfold lock_state in Hl.
      assert (fd (step ev w) = fd w /\ bridge (step ev w) = bridge w)
        as [Hf Hb] by (split; congruence).
      rewrite Hf. apply (IH e). by rewrite <- Hb. }
    destruct ev as [open device|device|t r|t|k];
      try (apply Hcase; intros ? ?; discriminate). clear Hcase.
    simpl. destruct (bridge w) as [e'|] eqn:Hb; [intros _; by apply (IH e')|].
    destruct k as [reply|].
    + rewrite inhibit_idle_elapsed. destruct (gamepad_active w).
      * rewrite lock_idle_eq. simpl. destruct (fd w) eqn:F; simpl;
          [by rewrite Hb|]. destruct reply; simpl; [by rewrite Hb|done].
      * rewrite unlock_idle_eq. simpl. destruct (fd w); simpl; by rewrite Hb.
    + rewrite inhibit_idle_cancelled. unfold exec. rewrite unlock_idle_eq.
      simpl. intros _. by destruct (fd w) eqn:F; simpl; rewrite ?F.
  - unfold exec. rewrite start_unfold.
    destruct (fields_start_loop open (Dict.keys (tasks w)) (set_started true w))
      as [Hf Hb]. unfold exec in Hf, Hb. rewrite Hf, Hb. apply IH.
  - unfold exec. rewrite stop_begin_eq.
    destruct (lock_fields_cancel_all (Dict.values (tasks w))
                (set_started false w)) as [Hf Hb]. unfold exec in Hf, Hb.
    destruct (for_ _ _ _) as [[e'|[]] w']; simpl in *; rewrite Hf, Hb;
      apply IH.
Qed.

Lemma stop_reachable w evs r w' :
  reachable w -> stop evs w = Some (r, w') -> reachable w'.
Proof.
  intros Hr. unfold stop.
  pose proof (reach_stop w Hr) as Hr0. unfold exec in Hr0.
  destruct (stop_begin w) as [[e|ts] w0]; simpl in *.
  - by intros [= <- <-].
  - intros (evs' & -> & _)%await_gather_Some. by apply reachable_run.
Qed.

(** X15. The shutdown of [main]: when [stop] has returned and the sampling
    task is then cancelled, the started flag is false, every task the
    watcher created has finished, no descriptor is in [fd], no inhibitor is
    held and the sampling coroutine has ended - whether it was still looping
    or had ended before. *)
Theorem shutdown_leaves_nothing_running :
  forall (w : World) (evs : list event) (w' : World),
    reachable w -> None ∉ Dict.values (tasks w) ->
    stop evs w = Some (inr (), w') ->
    let w'' := step (WakeInhibit Cancel) w' in
    started w'' = false
    /\ (forall t, t < length (loop_tasks w'') -> task_finished w'' t = true)
    /\ fd w'' = None
    /\ inhibitors w'' = []
    /\ is_Some (bridge w'').
Proof.
  intros w evs w' Hr Hn Hstop. cbv zeta.
  destruct (stop_returns_after_all_finished w evs w'
              (reachable_Inv w Hr) Hn Hstop) as [Hs Hfin].
  pose proof (stop_reachable w evs _ w' Hr Hstop) as Hr'.
  pose proof (reach_step (WakeInhibit Cancel) w' Hr') as Hr''.
  destruct (step_WakeInhibit_fields Cancel w') as [Hl Hst].
  assert (Hb : is_Some (bridge (step (WakeInhibit Cancel) w'))).
  { simpl. destruct (bridge w') eqn:Hb; [by rewrite Hb|].
    by rewrite inhibit_idle_cancelled. }
  assert (Hf : fd (step (WakeInhibit Cancel) w') = None).
  { destruct Hb as [e He]. by apply (reachable_ended_unlocked _ e). }
  split_and!; try done.
  - by rewrite Hst.
  - intros t Ht. unfold task_finished in *. rewrite Hl in *. by apply Hfin.
  - by rewrite (inv_lock _ (reachable_Inv _ Hr'')), Hf.
Qed.

Lemma shutdown_leaves_nothing_running_witness :
  exists w', stop (deliveries [0; 1]) two_pads = Some (inr (), w')
    /\ inhibitors (step (WakeInhibit Cancel) w') = [].
Proof.
  assert (Hn : None ∉ Dict.values (tasks two_pads)).
  { intros H. change (Dict.values (tasks two_pads)) with [Some 0; Some 1] in H.
    apply elem_of_cons in H as [H|H]; [discriminate H|].
    apply elem_of_cons in H as [H|H]; [discriminate H|].
    by apply not_elem_of_nil in H. }
  destruct (stop_can_return two_pads Hn) as [w' E].
  { intros t H. change (Dict.values (tasks two_pads)) with [Some 0; Some 1] in H.
    apply elem_of_cons in H as [H|H]; [injection H as ->; by left|].
    apply elem_of_cons in H as [H|H]; [injection H as ->; by left|].
    by apply not_elem_of_nil in H. }
  exists w'. split; [exact E|].
  apply (shutdown_leaves_nothing_running two_pads _ w'
           reachable_two_pads Hn E).
Defined.

(** ** [stop] and a task that has not taken its first step *)

Lemma cancelled_unstarted_alter (f : Task -> Task) t0 t (l : list Task) w :
  loop_tasks w = alter f t0 l ->
  (forall k, l !! t = Some k ->
     (task_phase k = Created /\ must_cancel k = true) \/ task_phase k = Finished true ->
     t0 = t ->
     (task_phase (f k) = Created /\ must_cancel (f k) = true)
     \/ task_phase (f k) = Finished true) ->
  (exists k, l !! t = Some k
     /\ ((task_phase k = Created /\ must_cancel k = true)
         \/ task_phase k = Finished true)) ->
  cancelled_unstarted w t.
Proof.
  intros Hl Hf (k & Hk & Hp). unfold cancelled_unstarted. rewrite Hl.
  destruct (decide (t0 = t)) as [->|Hne].
  - exists (f k). rewrite list_lookup_alter_eq, Hk. split; [done|].
    by apply Hf.
  - exists k. by rewrite list_lookup_alter_ne.
Qed.

Lemma step_cancelled_unstarted ev w t :
  cancelled_unstarted w t -> cancelled_unstarted (step ev w) t.
Proof.
  intros Hc. pose proof Hc as (k & Hk & Hp).
  destruct ev as [open device|device|t0 r|t0|wk].
  - simpl. rewrite (in_loop_field (λ w, cancelled_unstarted w t)) by done.
    unfold exec. rewrite add_device_eq. simpl.
    destruct (Dict.get device (tasks w)) as [[?|]|]; try done;
      (destruct (started w); [|done]); rewrite create_monitor_task_eq;
      destruct (open device); try done; simpl;
      exists k; (split; [by apply lookup_app_l_Some|done]).
  - simpl. rewrite (in_loop_field (λ w, cancelled_unstarted w t)) by done.
    unfold exec. rewrite remove_device_eq. simpl.
    destruct (Dict.get device (tasks w)) as [[t0|]|]; try done.
    assert (cancelled_unstarted
              (set_loop_tasks (alter cancel_requested t0 (loop_tasks w))
                 (logged lg_watcher INFO (RemovingDevice device) w)) t).
    { eapply cancelled_unstarted_alter; [done| |by exists k].
      intros k' _ Hp' _. unfold cancel_requested.
      destruct Hp' as [[H1 H2]|H1]; rewrite H1; simpl; auto. }
    by destruct (Dict.get device (devices w)).
  - simpl. rewrite (in_loop_field (λ w, cancelled_unstarted w t)) by done.
    unfold exec. rewrite monitor_gamepad_events_eq.
    destruct (loop_tasks w !! t0) as [k0|] eqn:Hk0; [|done]. simpl.
    assert (Hother : forall p w', loop_tasks w' = loop_tasks w -> t0 ≠ t ->
              cancelled_unstarted
                (set_loop_tasks (alter (in_phase p) t0 (loop_tasks w)) w') t).
    { intros p w' Hw' Hne. exists k. simpl. by rewrite list_lookup_alter_ne. }
    destruct (decide (t0 = t)) as [->|Hne].
    + assert (k0 = k) as -> by congruence.
      destruct Hp as [[H1 H2]|H1]; rewrite H1, ?H2; simpl; [|done].
      exists (in_phase (Finished true) k). simpl.
      by rewrite list_lookup_alter_eq, Hk; auto.
    + destruct (task_phase k0), (must_cancel k0); simpl; try done;
        try (by apply Hother).
      destruct r; simpl; [done|]. destruct (decide _); by apply Hother.
  - simpl. rewrite (in_loop_field (λ w, cancelled_unstarted w t)) by done.
    unfold exec. rewrite Task_run_callback_eq.
    destruct (loop_tasks w !! t0) as [k0|]; [|done].
    destruct (task_phase k0); try done. destruct (done_callback k0); [|done].
    simpl.
    assert (cancelled_unstarted
              (set_loop_tasks (alter (with_callback None) t0 (loop_tasks w)) w) t).
    { eapply cancelled_unstarted_alter; [done| |by exists k]. by intros. }
    by destruct (Dict.get _ _).
  - unfold cancelled_unstarted.
    by destruct (step_WakeInhibit_fields wk w) as [-> _].
Qed.

Lemma gather_cancelled_unstarted ts w t :
  t ∈ ts -> cancelled_unstarted w t -> gather ts w ≠ Some (inr ()).
Proof.
  intros Hin (k & Hk & Hp) G.
  pose proof (gather_returns ts w G t Hin) as Hf.
  unfold gather in G. destruct (existsb (task_cancelled w) ts) eqn:E; [done|].
  assert (existsb (task_cancelled w) ts = true); [|congruence].
  apply existsb_exists. exists t. split; [by apply list_elem_of_In|].
  unfold task_finished, task_cancelled in *. rewrite Hk in *. simpl in *.
  destruct Hp as [[Hp _]|Hp]; by rewrite Hp in *.
Qed.

Lemma await_gather_cancelled_unstarted ts evs w t r w' :
  t ∈ ts -> cancelled_unstarted w t ->
  await_gather ts evs w = Some (r, w') -> r = inl CancelledError.
Proof.
  intros Hin. revert w. induction evs as [|ev evs IH]; intros w Hc.
  - simpl. destruct (gather ts w) as [r0|] eqn:G; [|done]. intros [= <- <-].
    pose proof (gather_cancelled_unstarted ts w t Hin Hc) as Hne.
    unfold gather in *. destruct (existsb _ _); [congruence|].
    destruct (forallb _ _); [done|congruence].
  - rewrite await_gather_cons. destruct (gather ts w) as [r0|] eqn:G.
    + intros [= <- <-].
      pose proof (gather_cancelled_unstarted ts w t Hin Hc) as Hne.
      unfold gather in *. destruct (existsb _ _); [congruence|].
      destruct (forallb _ _); [done|congruence].
    + apply IH. by apply step_cancelled_unstarted.
Qed.

Lemma await_gather_nil ts w :
  await_gather ts [] w =
    match gather ts w with Some r => Some (r, w) | None => None end.
Proof. done. Qed.

Lemma step_unstarted_cancelled w t r :
  cancelled_unstarted w t -> task_cancelled (step (StepTask t r) w) t = true.
Proof.
  intros (k & Hk & Hp). unfold task_cancelled. simpl. unfold in_loop.
  rewrite monitor_gamepad_events_eq, Hk. simpl.
  destruct Hp as [[H1 H2]|H1].
  - rewrite H1, H2. simpl. by rewrite list_lookup_alter_eq, Hk.
  - rewrite H1. simpl. by rewrite Hk; simpl; rewrite H1.
Qed.

Lemma gather_cancelled ts w t :
  t ∈ ts -> task_cancelled w t = true ->
  gather ts w = Some (inl CancelledError).
Proof.
  intros Hin Hc. unfold gather.
  replace (existsb (task_cancelled w) ts) with true; [done|]. symmetry.
  apply existsb_exists. exists t. split; [by apply list_elem_of_In|done].
Qed.

(** X16. If [stop] begins while a task of the map has not yet taken its
    first step, that task ends cancelled and [asyncio.gather] passes the
    cancellation on: under no schedule does [stop] return; it is still
    waiting or has raised [CancelledError], and it has raised as soon as the
    loop has stepped that task. *)
Theorem stop_raises_when_task_unstarted :
  forall (w : World) (evs : list event) (t : nat),
    None ∉ Dict.values (tasks w) ->
    Some t ∈ Dict.values (tasks w) ->
    phase_of w t = Some Created ->
    (stop evs w = None
     \/ exists w', stop evs w = Some (inl CancelledError, w'))
    /\ exists w', stop [StepTask t InputEvent] w = Some (inl CancelledError, w').
Proof.
  intros w evs t Hn Hin Hp.
  assert (Hts : t ∈ omap id (Dict.values (tasks w))).
  { apply list_elem_of_omap. by exists (Some t). }
  unfold phase_of in Hp.
  destruct (loop_tasks w !! t) as [k|] eqn:Hk; [|done].
  injection Hp as Hp.
  unfold stop. rewrite stop_begin_ok by done.
  remember (set_loop_tasks (cancel_each (Dict.values (tasks w)) (loop_tasks w))
              (set_started false w)) as w0 eqn:Hw0.
  remember (omap id (Dict.values (tasks w))) as ts eqn:Hts0.
  assert (Hc : cancelled_unstarted w0 t).
  { exists (cancel_requested k). subst w0. simpl.
    rewrite (cancel_each_lookup _ _ t k Hk), bool_decide_true by done.
    split; [done|]. left. unfold cancel_requested. by rewrite Hp. }
  clear Hw0 Hts0 Hin Hn Hk Hp.
  assert (Hall : forall evs r w',
            await_gather ts evs w0 = Some (r, w') -> r = inl CancelledError).
  { intros evs' r w'.
    by apply (await_gather_cancelled_unstarted _ evs' w0 t). }
  split.
  - destruct (await_gather ts evs w0) as [[r w']|] eqn:E; [|by left].
    right. exists w'. by rewrite (Hall evs r w' E).
  - rewrite await_gather_cons. destruct (gather ts w0) as [r|] eqn:G.
    + exists w0. f_equal. f_equal.
      apply (Hall [] r w0). simpl. by rewrite G.
    + exists (step (StepTask t InputEvent) w0).
      assert (G1 : gather ts (step (StepTask t InputEvent) w0)
                   = Some (inl CancelledError)).
      { apply (gather_cancelled ts _ t); [done|].
        by apply step_unstarted_cancelled. }
      by rewrite await_gather_nil, G1.
Qed.

Lemma stop_raises_when_task_unstarted_witness :
  exists w', stop [StepTask 0 InputEvent] booted = Some (inl CancelledError, w').
Proof.
  apply (stop_raises_when_task_unstarted booted [] 0).
  - intros H. change (Dict.values (tasks booted)) with [Some 0] in H.
    apply list_elem_of_singleton in H. discriminate H.
  - change (Dict.values (tasks booted)) with [Some 0].
    by apply list_elem_of_singleton.
  - reflexivity.
Defined.
